(** * The OverReserve cache of the NodeResourceTopology scheduler plugin

    A shallow embedding of [pkg/noderesourcetopology/cache/overreserve.go]
    and the properties of its read, mark, reserve, flush and resync
    operations.

    The Go type [OverReserve] guards four maps with one mutex; every
    method takes the lock for its whole body, so a method is a function
    from the guarded state to the guarded state (and a result).  Logging
    has no effect on the state and is left out, except for the three
    outcomes of [Resync], which are kept as a value. *)

From stdpp Require Import gmap strings list fin_maps pretty.
From Stdlib Require Import NArith ZArith Ascii.

Set Warnings "-clear-no-such-hyp".

Local Open Scope string_scope.

(** ** Data of the API packages *)

(** Modelled from the spec: [resource.Quantity] of the Kubernetes API,
    which is not among the sources.  The spec speaks of available
    quantities of a resource that never go below zero: a quantity is a
    natural number. *)
Definition Quantity := N.

(** [corev1.ResourceList]: resource name -> quantity. *)
Abbreviation ResourceList := (gmap string N).

(** Modelled from the spec: the per-resource entry of a zone of the published
    snapshot (capacity, allocatable and available quantity), declared in
    the topology API package, which is not among the sources. *)
Record ResourceInfo := {
  resName : string;
  Capacity : Quantity;
  Allocatable : Quantity;
  Available : Quantity
}.

(** Modelled from the spec: a resource zone of a node. *)
Record Zone := {
  zoneName : string;
  Resources : list ResourceInfo
}.

(** Modelled from the spec: [topologyv1alpha2.NodeResourceTopology], the
    published snapshot of a node.  [Attributes] carries what the node
    agent embeds (the fingerprint digest and its scope). *)
Record NodeResourceTopology := {
  nrtName : string;
  Attributes : list (string * string);
  Zones : list Zone
}.

(** [corev1.Pod], restricted to what the cache reads: the identity, the
    node assignment and the resource requests of the workload unit. *)
Record Pod := {
  Namespace : string;
  Name : string;
  NodeName : string;
  Requests : ResourceList
}.

(** [logging.PodLogID]. *)
Definition PodLogID (pod : Pod) : string :=
  Namespace pod ++ "/" ++ Name pod.

(** [apiconfig.CacheResyncMethod]. *)
Inductive CacheResyncMethod :=
  | CacheResyncAutodetect
  | CacheResyncAll
  | CacheResyncOnlyExclusiveResources.

(** ** The stores composed by the cache *)

(** Modelled from the spec: the type [counter] and its methods, declared
    in a file of the cache package that is not among the sources.  Spec
    4.3: [incr(node) -> new count], [delete(node)], [isSet(node)],
    [keys()], [clone()]. *)
Abbreviation counter := (gmap string nat).

Definition newCounter : counter := ∅.

(** [cnt.Incr(key)]: the map after the increment, and the new count. *)
Definition Incr (key : string) (cnt : counter) : counter * nat :=
  let val := S (default 0 (cnt !! key)) in (<[key := val]> cnt, val).

Definition IsSet (key : string) (cnt : counter) : bool :=
  bool_decide (is_Some (cnt !! key)).

Definition Delete (key : string) (cnt : counter) : counter := delete key cnt.

Definition Keys (cnt : counter) : list string := (map_to_list cnt).*1.

Definition Clone (cnt : counter) : counter := cnt.

(** Modelled from the spec: the type [nrtStore] and its methods, declared
    in a file of the cache package that is not among the sources.  Spec
    4.1: [get(node) -> snapshot-or-absent], [contains(node)],
    [replace(node, snapshot)], an upsert keyed by node name. *)
Abbreviation nrtStore := (gmap string NodeResourceTopology).

Definition newNrtStore (nrts : list NodeResourceTopology) : nrtStore :=
  fold_left (fun data nrt => <[nrtName nrt := nrt]> data) nrts ∅.

Definition Contains (nodeName : string) (nrs : nrtStore) : bool :=
  bool_decide (is_Some (nrs !! nodeName)).

Definition GetNRTCopyByNodeName (nodeName : string) (nrs : nrtStore)
  : option NodeResourceTopology := nrs !! nodeName.

Definition Update (nrt : NodeResourceTopology) (nrs : nrtStore) : nrtStore :=
  <[nrtName nrt := nrt]> nrs.

(** Subtraction of quantities that stops at zero. *)
Definition clampSub (a b : Quantity) : Quantity :=
  if (a <? b)%N then 0%N else (a - b)%N.

(** Modelled from the spec: the type [resourceStore] and its methods,
    declared in a file of the cache package that is not among the
    sources.  Spec 3 and 4.2: the record of the quantities charged
    against a node by the units reserved on it, kept per unit so that
    removing a unit that is not charged changes nothing;
    [addWorkloadUnit] charges the unit's requested quantities,
    [removeWorkloadUnit] takes them back, and [applyTo] reduces the
    available quantity of every zone by the accumulated charge, never
    below zero.  A unit's requests name no zone: they are charged
    against each zone of the node. *)
Abbreviation resourceStore := (gmap string ResourceList).

Definition newResourceStore : resourceStore := ∅.

Definition AddPod (pod : Pod) (rs : resourceStore) : resourceStore :=
  <[PodLogID pod := Requests pod]> rs.

Definition DeletePod (pod : Pod) (rs : resourceStore) : resourceStore :=
  delete (PodLogID pod) rs.

(** The accumulated charge of a resource: the sum of what the charged
    units request of it. *)
Definition charged (rs : resourceStore) (res : string) : Quantity :=
  map_fold (fun _ (req : ResourceList) acc => (acc + default 0 (req !! res))%N) 0%N rs.

Definition updateResource (rs : resourceStore) (zr : ResourceInfo) : ResourceInfo :=
  {| resName := resName zr;
     Capacity := Capacity zr;
     Allocatable := Allocatable zr;
     Available := clampSub (Available zr) (charged rs (resName zr)) |}.

Definition updateZone (rs : resourceStore) (zone : Zone) : Zone :=
  {| zoneName := zoneName zone;
     Resources := map (updateResource rs) (Resources zone) |}.

Definition UpdateNRT (rs : resourceStore) (nrt : NodeResourceTopology)
  : NodeResourceTopology :=
  {| nrtName := nrtName nrt;
     Attributes := Attributes nrt;
     Zones := map (updateZone rs) (Zones nrt) |}.

(** ** The cache *)

(** [type OverReserve struct]: the fields guarded by [lock], and the
    resync method read at construction.  The client, the pod lister and
    the relevance predicate are the collaborators of [Resync]. *)
Record OverReserve := {
  nrts : nrtStore;
  assumedResources : gmap string resourceStore;
  nodesMaybeOverreserved : counter;
  nodesWithForeignPods : counter;
  resyncMethod : CacheResyncMethod
}.

(** [GetCachedNRTCopy]: the snapshot handed out is a copy, so the stored
    one is not touched by [UpdateNRT]. *)
Definition GetCachedNRTCopy (nodeName : string) (pod : Pod) (ov : OverReserve)
  : option NodeResourceTopology * bool :=
  if IsSet nodeName (nodesWithForeignPods ov) then (None, false)
  else
    match GetNRTCopyByNodeName nodeName (nrts ov) with
    | None => (None, true)
    | Some nrt =>
        match assumedResources ov !! nodeName with
        | None => (Some nrt, true)
        | Some nodeAssumedResources => (Some (UpdateNRT nodeAssumedResources nrt), true)
        end
    end.

(** [NodeMaybeOverReserved]: the count only feeds the log line. *)
Definition NodeMaybeOverReserved (nodeName : string) (pod : Pod) (ov : OverReserve)
  : OverReserve :=
  let '(cnt, _) := Incr nodeName (nodesMaybeOverreserved ov) in
  {| nrts := nrts ov;
     assumedResources := assumedResources ov;
     nodesMaybeOverreserved := cnt;
     nodesWithForeignPods := nodesWithForeignPods ov;
     resyncMethod := resyncMethod ov |}.

(** [NodeHasForeignPods]. *)
Definition NodeHasForeignPods (nodeName : string) (pod : Pod) (ov : OverReserve)
  : OverReserve :=
  if negb (Contains nodeName (nrts ov)) then ov
  else
    let '(cnt, _) := Incr nodeName (nodesWithForeignPods ov) in
    {| nrts := nrts ov;
       assumedResources := assumedResources ov;
       nodesMaybeOverreserved := nodesMaybeOverreserved ov;
       nodesWithForeignPods := cnt;
       resyncMethod := resyncMethod ov |}.

(** [ReserveNodeResources]: the map holds a pointer to the node's store,
    so [AddPod] on the pointer is an update of the map entry. *)
Definition ReserveNodeResources (nodeName : string) (pod : Pod) (ov : OverReserve)
  : OverReserve :=
  let nodeAssumedResources :=
    match assumedResources ov !! nodeName with
    | Some rs => rs
    | None => newResourceStore
    end in
  {| nrts := nrts ov;
     assumedResources :=
       <[nodeName := AddPod pod nodeAssumedResources]> (assumedResources ov);
     nodesMaybeOverreserved := Delete nodeName (nodesMaybeOverreserved ov);
     nodesWithForeignPods := nodesWithForeignPods ov;
     resyncMethod := resyncMethod ov |}.

(** [UnreserveNodeResources]. *)
Definition UnreserveNodeResources (nodeName : string) (pod : Pod) (ov : OverReserve)
  : OverReserve :=
  match assumedResources ov !! nodeName with
  | None => ov
  | Some nodeAssumedResources =>
      {| nrts := nrts ov;
         assumedResources :=
           <[nodeName := DeletePod pod nodeAssumedResources]> (assumedResources ov);
         nodesMaybeOverreserved := nodesMaybeOverreserved ov;
         nodesWithForeignPods := nodesWithForeignPods ov;
         resyncMethod := resyncMethod ov |}
  end.

(** [NodesMaybeOverReserved]: the clone of the foreign counter is local
    to the call; the cache is not changed. *)
Definition NodesMaybeOverReserved (ov : OverReserve) : list string :=
  let nodes := Clone (nodesWithForeignPods ov) in
  let nodes :=
    fold_left (fun nodes node => fst (Incr node nodes))
              (Keys (nodesMaybeOverreserved ov)) nodes in
  Keys nodes.

(** One round of the loop of [FlushNodes]. *)
Definition flushNode (ov : OverReserve) (nrt : NodeResourceTopology) : OverReserve :=
  {| nrts := Update nrt (nrts ov);
     assumedResources := delete (nrtName nrt) (assumedResources ov);
     nodesMaybeOverreserved := Delete (nrtName nrt) (nodesMaybeOverreserved ov);
     nodesWithForeignPods := Delete (nrtName nrt) (nodesWithForeignPods ov);
     resyncMethod := resyncMethod ov |}.

(** [FlushNodes]. *)
Definition FlushNodes (nrts : list NodeResourceTopology) (ov : OverReserve)
  : OverReserve :=
  fold_left flushNode nrts ov.

(** [PostBind]. *)
Definition PostBind (nodeName : string) (pod : Pod) (ov : OverReserve) : OverReserve := ov.

(** [getCacheResyncMethod]: [cfg] may be nil, and so may its field. *)
Definition getCacheResyncMethod (cfg : option (option CacheResyncMethod))
  : CacheResyncMethod :=
  match cfg with
  | Some (Some resyncMethod) => resyncMethod
  | _ => CacheResyncAutodetect
  end.

(** [NewOverReserve]: [client] is [None] for a nil client and otherwise
    holds what its [List] answers ([None] for an error); [podLister]
    tells whether the lister is there. *)
Definition NewOverReserve (cfg : option (option CacheResyncMethod))
    (client : option (option (list NodeResourceTopology))) (podLister : bool)
  : option OverReserve :=
  match client, podLister with
  | Some (Some nrtObjs), true =>
      Some {| nrts := newNrtStore nrtObjs;
              assumedResources := ∅;
              nodesMaybeOverreserved := newCounter;
              nodesWithForeignPods := newCounter;
              resyncMethod := getCacheResyncMethod cfg |}
  | _, _ => None
  end.

(** ** Resync *)

(** [type podData struct], declared in a file of the package that is not
    among the sources; its fields are those [makeNodeToPodDataMap] sets. *)
Record podData := {
  pdNamespace : string;
  pdName : string;
  HasExclusiveResources : bool
}.

(** What the fingerprint check can answer besides success. *)
Inductive FingerprintError :=
  | ErrSignatureMismatch
  | ErrMalformed.

(** What a run of [Resync] logs before it returns. *)
Inductive ResyncOutcome :=
  | NoDirtyNodes
  | ListingFailed
  | ResyncComplete (flushed : list string).

(** The units of a roster the digest is computed over. *)
Definition scopedIdentifiers (objs : list podData) (onlyExclRes : bool)
  : list (string * string) :=
  map (fun obj => (pdNamespace obj, pdName obj))
      (List.filter (fun obj => negb onlyExclRes || HasExclusiveResources obj) objs).

(** Modelled from the spec: [checkPodFingerprintForNode], of a file of
    the package that is not among the sources.  Spec 4.4: compute the
    expected digest over the correctly-scoped subset (all units, or
    only exclusive-resource units) and compare against the published
    digest; a difference is a mismatch.  [sign] is the digest of the
    external fingerprint library, over the (namespace, name) pairs of a
    set of units. *)
Definition digestCheck (sign : list (string * string) -> string)
    (objs : list podData) (nodeName : string)
    (pfpExpected : string) (onlyExclRes : bool) : option FingerprintError :=
  if decide (sign (scopedIdentifiers objs onlyExclRes) = pfpExpected)
  then None else Some ErrSignatureMismatch.

Section Resync.

(** [podFingerprintForNodeTopology], of a file of the package that is
    not among the sources: the digest a snapshot carries (empty when it
    carries none) and whether it covers only the units with exclusive
    resources. *)
Variable podFingerprintForNodeTopology :
  NodeResourceTopology -> CacheResyncMethod -> string * bool.

(** [checkPodFingerprintForNode], of a file of the package that is not
    among the sources: the check of the digest of a roster against the
    expected one, [None] when they agree. *)
Variable checkPodFingerprintForNode :
  list podData -> string -> string -> bool -> option FingerprintError.

(** The injected [podprovider.PodFilterFunc]. *)
Variable isPodRelevant : Pod -> bool.

(** [resourcerequests.AreExclusiveForPod]. *)
Variable AreExclusiveForPod : Pod -> bool.

(** One round of the loop of [makeNodeToPodDataMap]. *)
Definition addPodData (nodeToObjsMap : gmap string (list podData)) (pod : Pod)
  : gmap string (list podData) :=
  if negb (isPodRelevant pod) then nodeToObjsMap
  else
    let nodeObjs := default [] (nodeToObjsMap !! NodeName pod) in
    let nodeObjs :=
      (nodeObjs ++ [{| pdNamespace := Namespace pod;
                       pdName := Name pod;
                       HasExclusiveResources := AreExclusiveForPod pod |}])%list in
    <[NodeName pod := nodeObjs]> nodeToObjsMap.

(** [makeNodeToPodDataMap]: [podLister] is what the lister's [List]
    answers, [None] for an error. *)
Definition makeNodeToPodDataMap (podLister : option (list Pod))
  : option (gmap string (list podData)) :=
  match podLister with
  | None => None
  | Some pods => Some (fold_left addPodData pods ∅)
  end.

(** The body of the loop of [Resync] for one dirty node: the snapshot
    to flush, or [None] where the loop continues.  [client] is the
    [Get] of the object store by node name, [None] for an error; the
    candidate is the address of a struct made in the loop, so the test
    for a nil candidate never fires. *)
Definition resyncCandidate (client : string -> option NodeResourceTopology)
    (nodeToObjsMap : gmap string (list podData)) (method : CacheResyncMethod)
    (nodeName : string) : option NodeResourceTopology :=
  match client nodeName with
  | None => None
  | Some nrtCandidate =>
      match nodeToObjsMap !! nodeName with
      | None => None
      | Some objs =>
          let '(pfpExpected, onlyExclRes) :=
            podFingerprintForNodeTopology nrtCandidate method in
          if decide (pfpExpected = "") then None
          else
            match checkPodFingerprintForNode objs nodeName pfpExpected onlyExclRes with
            | Some ErrSignatureMismatch => None
            | Some _ => None
            | None => Some nrtCandidate
            end
      end
  end.

(** [Resync]. *)
Definition Resync (podLister : option (list Pod))
    (client : string -> option NodeResourceTopology) (ov : OverReserve)
  : OverReserve * ResyncOutcome :=
  let nodeNames := NodesMaybeOverReserved ov in
  if decide (length nodeNames = 0) then (ov, NoDirtyNodes)
  else
    match makeNodeToPodDataMap podLister with
    | None => (ov, ListingFailed)
    | Some nodeToObjsMap =>
        let nrtUpdates :=
          omap (resyncCandidate client nodeToObjsMap (resyncMethod ov)) nodeNames in
        (FlushNodes nrtUpdates ov, ResyncComplete (map nrtName nrtUpdates))
    end.

End Resync.

(** ** Sequences of operations *)

(** The public operations of the cache, each with what its collaborators
    answer during the call. *)
Inductive Op :=
  | OpGetCachedNRTCopy (nodeName : string) (pod : Pod)
  | OpNodeMaybeOverReserved (nodeName : string) (pod : Pod)
  | OpNodeHasForeignPods (nodeName : string) (pod : Pod)
  | OpReserveNodeResources (nodeName : string) (pod : Pod)
  | OpUnreserveNodeResources (nodeName : string) (pod : Pod)
  | OpNodesMaybeOverReserved
  | OpResync (podLister : option (list Pod))
             (client : string -> option NodeResourceTopology)
  | OpFlushNodes (nrts : list NodeResourceTopology)
  | OpPostBind (nodeName : string) (pod : Pod).

(** Removes one occurrence of a unit from the units outstanding on a node. *)
Fixpoint removeOne (key : string) (keys : list string) : list string :=
  match keys with
  | [] => []
  | k :: keys' => if decide (k = key) then keys' else k :: removeOne key keys'
  end.

Section Traces.

Variable podFingerprintForNodeTopology :
  NodeResourceTopology -> CacheResyncMethod -> string * bool.
Variable checkPodFingerprintForNode :
  list podData -> string -> string -> bool -> option FingerprintError.
Variable isPodRelevant : Pod -> bool.
Variable AreExclusiveForPod : Pod -> bool.

Definition step (op : Op) (ov : OverReserve) : OverReserve :=
  match op with
  | OpGetCachedNRTCopy _ _ => ov
  | OpNodeMaybeOverReserved nodeName pod => NodeMaybeOverReserved nodeName pod ov
  | OpNodeHasForeignPods nodeName pod => NodeHasForeignPods nodeName pod ov
  | OpReserveNodeResources nodeName pod => ReserveNodeResources nodeName pod ov
  | OpUnreserveNodeResources nodeName pod => UnreserveNodeResources nodeName pod ov
  | OpNodesMaybeOverReserved => ov
  | OpResync podLister client =>
      fst (Resync podFingerprintForNodeTopology checkPodFingerprintForNode isPodRelevant AreExclusiveForPod
                  podLister client ov)
  | OpFlushNodes nrts => FlushNodes nrts ov
  | OpPostBind nodeName pod => PostBind nodeName pod ov
  end.

Definition run (ops : list Op) (ov : OverReserve) : OverReserve :=
  fold_left (fun ov op => step op ov) ops ov.

(** The nodes an operation flushes when it runs on [ov]. *)
Definition flushedBy (op : Op) (ov : OverReserve) : list string :=
  match op with
  | OpFlushNodes nrts => map nrtName nrts
  | OpResync podLister client =>
      match snd (Resync podFingerprintForNodeTopology checkPodFingerprintForNode isPodRelevant
                        AreExclusiveForPod podLister client ov) with
      | ResyncComplete flushed => flushed
      | _ => []
      end
  | _ => []
  end.

(** The reservations outstanding on each node: made through reserve and
    neither taken back by unreserve nor flushed since. *)
Definition bookOutstanding (op : Op) (ov : OverReserve)
    (led : gmap string (list string)) : gmap string (list string) :=
  match op with
  | OpReserveNodeResources nodeName pod =>
      <[nodeName := PodLogID pod :: default [] (led !! nodeName)]> led
  | OpUnreserveNodeResources nodeName pod =>
      alter (removeOne (PodLogID pod)) nodeName led
  | _ => fold_left (fun led nodeName => delete nodeName led) (flushedBy op ov) led
  end.

Fixpoint outstandingFrom (ops : list Op) (ov : OverReserve)
    (led : gmap string (list string)) : gmap string (list string) :=
  match ops with
  | [] => led
  | op :: ops' => outstandingFrom ops' (step op ov) (bookOutstanding op ov led)
  end.

Definition outstanding (ops : list Op) (ov : OverReserve) (nodeName : string)
  : list string :=
  default [] (outstandingFrom ops ov ∅ !! nodeName).

(** The nodes reserved on since they were last flushed (or ever). *)
Definition bookReserved (op : Op) (ov : OverReserve) (seen : gset string)
  : gset string :=
  match op with
  | OpReserveNodeResources nodeName _ => {[nodeName]} ∪ seen
  | _ => seen ∖ list_to_set (flushedBy op ov)
  end.

Fixpoint reservedFrom (ops : list Op) (ov : OverReserve) (seen : gset string)
  : gset string :=
  match ops with
  | [] => seen
  | op :: ops' => reservedFrom ops' (step op ov) (bookReserved op ov seen)
  end.

Definition reservedSinceFlush (ops : list Op) (ov : OverReserve) : gset string :=
  reservedFrom ops ov ∅.

End Traces.

(** ** The properties in the words of the specification *)

(** The available quantity of a resource less what a unit requests of
    it, computed in the integers and clamped at zero. *)
Definition lessRequested (req : ResourceList) (zr : ResourceInfo) : ResourceInfo :=
  {| resName := resName zr;
     Capacity := Capacity zr;
     Allocatable := Allocatable zr;
     Available :=
       Z.to_N (Z.max 0 (Z.of_N (Available zr)
                        - Z.of_N (default 0%N (req !! resName zr)))) |}.

(** A snapshot with the requests of a unit taken off every zone. *)
Definition lessRequestedNRT (req : ResourceList) (nrt : NodeResourceTopology)
  : NodeResourceTopology :=
  {| nrtName := nrtName nrt;
     Attributes := Attributes nrt;
     Zones :=
       map (fun zone => {| zoneName := zoneName zone;
                           Resources := map (lessRequested req) (Resources zone) |})
           (Zones nrt) |}.

(** The adjusted view of a node is the un-overlaid stored snapshot. *)
Definition viewIsStored (nodeName : string) (pod : Pod) (ov : OverReserve) : Prop :=
  ∃ nrt, nrts ov !! nodeName = Some nrt
         ∧ GetCachedNRTCopy nodeName pod ov = (Some nrt, true).

(** The four entries the cache keeps for a node. *)
Definition nodeState (nodeName : string) (ov : OverReserve)
  : option NodeResourceTopology * option resourceStore * option nat * option nat :=
  (nrts ov !! nodeName, assumedResources ov !! nodeName,
   nodesMaybeOverreserved ov !! nodeName, nodesWithForeignPods ov !! nodeName).

(** A flushed node: the fresh snapshot stored, no overlay entry, no
    counter entry. *)
Definition flushedState (nrt : NodeResourceTopology)
  : option NodeResourceTopology * option resourceStore * option nat * option nat :=
  (Some nrt, None, None, None).

Section Roster.

Variable podFingerprintForNodeTopology :
  NodeResourceTopology -> CacheResyncMethod -> string * bool.
Variable checkPodFingerprintForNode :
  list podData -> string -> string -> bool -> option FingerprintError.
Variable isPodRelevant : Pod -> bool.
Variable AreExclusiveForPod : Pod -> bool.

(** The live roster of a node: the relevant units the lister reports on
    it, in the order of the listing. *)
Definition liveRoster (pods : list Pod) (nodeName : string) : list podData :=
  map (fun pod => {| pdNamespace := Namespace pod;
                     pdName := Name pod;
                     HasExclusiveResources := AreExclusiveForPod pod |})
      (List.filter (fun pod => isPodRelevant pod && bool_decide (NodeName pod = nodeName))
                   pods).

(** The snapshot fetched for a node carries a digest, and the check of
    that digest against the one computed over the node's live roster,
    which is there, succeeds. *)
Definition fingerprintMatches (podLister : option (list Pod))
    (client : string -> option NodeResourceTopology) (method : CacheResyncMethod)
    (nodeName : string) (nrt : NodeResourceTopology) : Prop :=
  client nodeName = Some nrt
  ∧ ∃ pods, podLister = Some pods
      ∧ liveRoster pods nodeName ≠ []
      ∧ (podFingerprintForNodeTopology nrt method).1 ≠ ""
      ∧ checkPodFingerprintForNode (liveRoster pods nodeName) nodeName
          (podFingerprintForNodeTopology nrt method).1
          (podFingerprintForNodeTopology nrt method).2 = None.

End Roster.

(** ** A cluster of one node *)

Module Scenario.

(** Three units on node n1 and one on node n2. *)
Definition podA : Pod :=
  {| Namespace := "default"; Name := "a"; NodeName := "n1";
     Requests := {[ "cpu" := 2%N ]} |}.

Definition podB : Pod :=
  {| Namespace := "default"; Name := "b"; NodeName := "n1";
     Requests := <[ "cpu" := 1%N ]> {[ "memory" := 64%N ]} |}.

Definition podC : Pod :=
  {| Namespace := "default"; Name := "c"; NodeName := "n1";
     Requests := {[ "cpu" := 4%N ]} |}.

Definition podD : Pod :=
  {| Namespace := "default"; Name := "d"; NodeName := "n2";
     Requests := {[ "cpu" := 1%N ]} |}.

Fixpoint stringCode (s : string) (acc : N) : N :=
  match s with
  | EmptyString => acc
  | String c s' => stringCode s' (acc * 31 + Ascii.N_of_ascii c)%N
  end.

(** A digest that does not depend on the order of the units. *)
Definition sign (ids : list (string * string)) : string :=
  pretty (fold_right (fun id acc => (stringCode (id.1 ++ "/" ++ id.2) 7 + acc)%N)
                     0%N ids).

Fixpoint findAttr (name : string) (attrs : list (string * string)) : option string :=
  match attrs with
  | [] => None
  | (k, v) :: attrs' => if decide (k = name) then Some v else findAttr name attrs'
  end.

(** The digest is read off the attributes of the snapshot; it covers
    only the exclusive units when the cache is configured so. *)
Definition podFingerprintForNodeTopology (nrt : NodeResourceTopology)
    (method : CacheResyncMethod) : string * bool :=
  (default "" (findAttr "nodeTopologyPodsFingerprint" (Attributes nrt)),
   match method with
   | CacheResyncOnlyExclusiveResources => true
   | _ => false
   end).

Definition checkPodFingerprintForNode
  : list podData -> string -> string -> bool -> option FingerprintError :=
  digestCheck sign.

Definition isPodRelevant (pod : Pod) : bool := true.

Definition AreExclusiveForPod (pod : Pod) : bool := false.

Definition zonesOf (cpu0 mem0 cpu1 mem1 : N) : list Zone :=
  [ {| zoneName := "node-0";
       Resources := [ {| resName := "cpu"; Capacity := 8; Allocatable := 8;
                         Available := cpu0 |};
                      {| resName := "memory"; Capacity := 256; Allocatable := 256;
                         Available := mem0 |} ] |};
    {| zoneName := "node-1";
       Resources := [ {| resName := "cpu"; Capacity := 8; Allocatable := 8;
                         Available := cpu1 |};
                      {| resName := "memory"; Capacity := 256; Allocatable := 256;
                         Available := mem1 |} ] |} ]%N.

(** The snapshot of n1 the cache starts with: no unit runs on the node
    yet, and one cpu is left in the second zone. *)
Definition stale : NodeResourceTopology :=
  {| nrtName := "n1";
     Attributes := [("nodeTopologyPodsFingerprint", sign [])];
     Zones := zonesOf 8 256 1 256 |}.

(** The snapshot of n1 published once a and b run on it. *)
Definition fresh : NodeResourceTopology :=
  {| nrtName := "n1";
     Attributes := [("nodeTopologyPodsFingerprint",
                     sign [("default", "a"); ("default", "b")])];
     Zones := zonesOf 5 192 1 256 |}.

Definition client (nodeName : string) : option NodeResourceTopology :=
  if decide (nodeName = "n1") then Some fresh else None.

(** The cache as [NewOverReserve] makes it. *)
Definition cache0 : OverReserve :=
  {| nrts := newNrtStore [stale];
     assumedResources := ∅;
     nodesMaybeOverreserved := newCounter;
     nodesWithForeignPods := newCounter;
     resyncMethod := CacheResyncAutodetect |}.

(** b is reserved on n1. *)
Definition busy : OverReserve := ReserveNodeResources "n1" podB cache0.

(** A foreign unit was seen on n1. *)
Definition foreign : OverReserve := NodeHasForeignPods "n1" podC cache0.

(** a and b are reserved on n1, which then rejects c. *)
Definition dirty : OverReserve :=
  NodeMaybeOverReserved "n1" podC
    (ReserveNodeResources "n1" podB (ReserveNodeResources "n1" podA cache0)).

Definition resync (pods : option (list Pod)) (ov : OverReserve)
  : OverReserve * ResyncOutcome :=
  Resync podFingerprintForNodeTopology checkPodFingerprintForNode isPodRelevant AreExclusiveForPod
         pods client ov.

Definition reserveThenUnreserve : list Op :=
  [OpReserveNodeResources "n1" podA; OpUnreserveNodeResources "n1" podA].

(** a is reserved on n1, the node is marked, a run of Resync finds a
    roster that does not match, and a is unreserved. *)
Definition busyCycle : list Op :=
  [OpReserveNodeResources "n1" podA;
   OpNodeMaybeOverReserved "n1" podC;
   OpResync (Some [podA; podD; podB; podC]) client;
   OpUnreserveNodeResources "n1" podA].

End Scenario.

(** ** Further notions for the properties of the operations *)

(** The snapshot [FlushNodes] leaves stored for a node: the last of the
    given ones that carries the node's name. *)
Fixpoint lastNamed (nodeName : string) (nrts : list NodeResourceTopology)
  : option NodeResourceTopology :=
  match nrts with
  | [] => None
  | nrt :: nrts' =>
      match lastNamed nodeName nrts' with
      | Some later => Some later
      | None => if decide (nrtName nrt = nodeName) then Some nrt else None
      end
  end.

(** Whether a string holds the separator of [PodLogID]. *)
Fixpoint hasSlash (s : string) : bool :=
  match s with
  | EmptyString => false
  | String c s' => bool_decide (c = "/"%char) || hasSlash s'
  end.

Section TraceFlushes.

Variable podFingerprintForNodeTopology :
  NodeResourceTopology -> CacheResyncMethod -> string * bool.
Variable checkPodFingerprintForNode :
  list podData -> string -> string -> bool -> option FingerprintError.
Variable isPodRelevant : Pod -> bool.
Variable AreExclusiveForPod : Pod -> bool.

(** The nodes flushed while a sequence of operations runs. *)
Fixpoint flushedAlong (ops : list Op) (ov : OverReserve) : list string :=
  match ops with
  | [] => []
  | op :: ops' =>
      (flushedBy podFingerprintForNodeTopology checkPodFingerprintForNode
                 isPodRelevant AreExclusiveForPod op ov
       ++ flushedAlong ops'
            (step podFingerprintForNodeTopology checkPodFingerprintForNode
                  isPodRelevant AreExclusiveForPod op ov))%list
  end.

End TraceFlushes.

(** ** The metrics of the vSphere cloud provider

    The recording functions of the package [vclib].  A call ends in one
    [Inc] of an error counter or one [Observe] of a latency histogram of
    the metrics library; the call is modelled by the sample it emits. *)

Module vclib.

Definition APICreateVolume := "CreateVolume".
Definition APIDeleteVolume := "DeleteVolume".
Definition APIAttachVolume := "AttachVolume".
Definition APIDetachVolume := "DetachVolume".

Definition OperationDeleteVolume := "DeleteVolumeOperation".
Definition OperationAttachVolume := "AttachVolumeOperation".
Definition OperationDetachVolume := "DetachVolumeOperation".
Definition OperationDiskIsAttached := "DiskIsAttachedOperation".
Definition OperationDisksAreAttached := "DisksAreAttachedOperation".
Definition OperationCreateVolume := "CreateVolumeOperation".
Definition OperationCreateVolumeWithPolicy := "CreateVolumeWithPolicyOperation".
Definition OperationCreateVolumeWithRawVSANPolicy :=
  "CreateVolumeWithRawVSANPolicyOperation".

(** [VolumeOptions], of a file of the package that is not among the
    sources, with the two fields [RecordCreateVolumeMetric] reads. *)
Record VolumeOptions := {
  StoragePolicyName : string;
  VSANStorageProfileData : string
}.

Section Recording.

(** [time.Time], and the seconds of a latency. *)
Variable Time : Type.
Variable Seconds : Type.

(** [requestTime.IsZero()]. *)
Variable IsZero : Time -> bool.

(** [time.Since(requestTime).Seconds()], read off the clock by the call. *)
Variable sinceSeconds : Time -> Seconds.

(** The latency 0. *)
Variable zeroSeconds : Seconds.

(** The sample a call hands to the metrics library: the metric vector,
    the value of its label, and the observed latency. *)
Inductive Sample :=
  | APIError (request : string)
  | APILatency (request : string) (timeTaken : Seconds)
  | OperationError (operation : string)
  | OperationLatency (operation : string) (timeTaken : Seconds).

(** [calculateTimeTaken]. *)
Definition calculateTimeTaken (requestBeginTime : Time) : Seconds :=
  if negb (IsZero requestBeginTime) then sinceSeconds requestBeginTime
  else zeroSeconds.

(** [recordvSphereAPIMetric]; [err] tells whether the error is not nil. *)
Definition recordvSphereAPIMetric (actionName : string) (requestTime : Time)
    (err : bool) : Sample :=
  if err then APIError actionName
  else APILatency actionName (calculateTimeTaken requestTime).

(** [recordvSphereOperationMetric]. *)
Definition recordvSphereOperationMetric (actionName : string) (requestTime : Time)
    (err : bool) : Sample :=
  if err then OperationError actionName
  else OperationLatency actionName (calculateTimeTaken requestTime).

(** [RecordvSphereMetric]. *)
Definition RecordvSphereMetric (actionName : string) (requestTime : Time)
    (err : bool) : Sample :=
  if bool_decide (actionName = APICreateVolume)
     || bool_decide (actionName = APIDeleteVolume)
     || bool_decide (actionName = APIAttachVolume)
     || bool_decide (actionName = APIDetachVolume)
  then recordvSphereAPIMetric actionName requestTime err
  else recordvSphereOperationMetric actionName requestTime err.

(** [RecordCreateVolumeMetric]. *)
Definition RecordCreateVolumeMetric (volumeOptions : VolumeOptions)
    (requestTime : Time) (err : bool) : Sample :=
  let actionName :=
    if negb (bool_decide (StoragePolicyName volumeOptions = ""))
    then OperationCreateVolumeWithPolicy
    else if negb (bool_decide (VSANStorageProfileData volumeOptions = ""))
    then OperationCreateVolumeWithRawVSANPolicy
    else OperationCreateVolume in
  RecordvSphereMetric actionName requestTime err.

(** Whether a sample goes to one of the two vectors of the operations. *)
Definition isOperationSample (sample : Sample) : bool :=
  match sample with
  | OperationError _ | OperationLatency _ _ => true
  | _ => false
  end.

(** The value of the label of a sample. *)
Definition sampleLabel (sample : Sample) : string :=
  match sample with
  | APIError l | APILatency l _ | OperationError l | OperationLatency l _ => l
  end.

(** Whether a sample is an increment of an error counter. *)
Definition isErrorSample (sample : Sample) : bool :=
  match sample with
  | APIError _ | OperationError _ => true
  | _ => false
  end.

End Recording.

End vclib.

(** ** Facts about the stores *)

Lemma elem_of_Keys (cnt : counter) (key : string) :
  key ∈ Keys cnt ↔ is_Some (cnt !! key).
Proof.
  unfold Keys. rewrite list_elem_of_fmap. split.
  - intros [[k v] [-> Hin]]. apply elem_of_map_to_list in Hin. eauto.
  - intros [v Hv]. exists (key, v). split; [done|]. by apply elem_of_map_to_list.
Qed.

Lemma NoDup_Keys (cnt : counter) : NoDup (Keys cnt).
Proof. apply NoDup_fst_map_to_list. Qed.

Lemma Incr_lookup (key other : string) (cnt : counter) :
  (Incr key cnt).1 !! other =
    if decide (other = key) then Some (S (default 0 (cnt !! key))) else cnt !! other.
Proof.
  unfold Incr; simpl. case_decide as Hk.
  - subst. apply lookup_insert_eq.
  - by apply lookup_insert_ne.
Qed.

Lemma Incr_fold_is_Some (keys : list string) (cnt : counter) (key : string) :
  is_Some (fold_left (fun nodes node => (Incr node nodes).1) keys cnt !! key)
  ↔ is_Some (cnt !! key) ∨ key ∈ keys.
Proof.
  revert cnt. induction keys as [|k keys IH]; intros cnt; cbn [fold_left].
  - rewrite elem_of_nil. tauto.
  - rewrite IH, Incr_lookup, elem_of_cons. case_decide as Hk.
    + subst. split; [intros _; right; by left | intros _; left; eauto].
    + split; [intros [?|?]; auto | intros [?|[?|?]]; auto; congruence].
Qed.

Lemma elem_of_NodesMaybeOverReserved (ov : OverReserve) (nodeName : string) :
  nodeName ∈ NodesMaybeOverReserved ov
  ↔ is_Some (nodesWithForeignPods ov !! nodeName)
    ∨ is_Some (nodesMaybeOverreserved ov !! nodeName).
Proof.
  unfold NodesMaybeOverReserved, Clone.
  by rewrite elem_of_Keys, Incr_fold_is_Some, elem_of_Keys.
Qed.

Lemma NoDup_NodesMaybeOverReserved (ov : OverReserve) :
  NoDup (NodesMaybeOverReserved ov).
Proof. apply NoDup_Keys. Qed.

Lemma IsSet_lookup (key : string) (cnt : counter) :
  IsSet key cnt = match cnt !! key with Some _ => true | None => false end.
Proof.
  unfold IsSet. destruct (cnt !! key) eqn:E.
  - apply bool_decide_eq_true. eauto.
  - apply bool_decide_eq_false. by intros [? ?].
Qed.

Lemma Contains_lookup (nodeName : string) (nrs : nrtStore) :
  Contains nodeName nrs = match nrs !! nodeName with Some _ => true | None => false end.
Proof.
  unfold Contains. destruct (nrs !! nodeName) eqn:E.
  - apply bool_decide_eq_true. eauto.
  - apply bool_decide_eq_false. by intros [? ?].
Qed.

Lemma clampSub_0_r (a : Quantity) : clampSub a 0%N = a.
Proof. unfold clampSub. destruct (N.ltb_spec a 0); lia. Qed.

Lemma charged_empty (res : string) : charged ∅ res = 0%N.
Proof. unfold charged. apply map_fold_empty. Qed.

Lemma charged_singleton (key : string) (req : ResourceList) (res : string) :
  charged {[key := req]} res = default 0%N (req !! res).
Proof. unfold charged. rewrite map_fold_singleton. lia. Qed.

Lemma UpdateNRT_empty (nrt : NodeResourceTopology) : UpdateNRT ∅ nrt = nrt.
Proof.
  destruct nrt as [name attrs zones]. unfold UpdateNRT; simpl. f_equal.
  rewrite <- (map_id zones) at 2. apply map_ext. intros [zn rl].
  unfold updateZone; simpl. f_equal.
  rewrite <- (map_id rl) at 2. apply map_ext. intros [rn c al av].
  unfold updateResource; simpl. by rewrite charged_empty, clampSub_0_r.
Qed.

(** ** The read path *)

(** C1: [GetCachedNRTCopy] answers (nil, false) for a node flagged as
    having foreign workload units; (nil, true) for a node that is not
    flagged and has no stored snapshot; and otherwise the stored snapshot
    with the charges of the node's overlay applied (none when the node
    has no overlay entry), together with true. *)
Theorem GetCachedNRTCopy_cases (nodeName : string) (pod : Pod) (ov : OverReserve) :
  GetCachedNRTCopy nodeName pod ov =
    match nodesWithForeignPods ov !! nodeName, nrts ov !! nodeName with
    | Some _, _ => (None, false)
    | None, None => (None, true)
    | None, Some nrt =>
        (Some (UpdateNRT (default ∅ (assumedResources ov !! nodeName)) nrt), true)
    end.
Proof.
  unfold GetCachedNRTCopy, GetNRTCopyByNodeName. rewrite IsSet_lookup.
  destruct (nodesWithForeignPods ov !! nodeName); [done|].
  destruct (nrts ov !! nodeName) as [nrt|]; [|done].
  destruct (assumedResources ov !! nodeName) as [rs|]; simpl; [done|].
  by rewrite UpdateNRT_empty.
Qed.

(** ** The mark operations *)

(** C8: [NodeHasForeignPods] increments the foreign counter of the node
    exactly when the topology store holds a snapshot for it, and touches
    nothing else; without a snapshot the cache is left as it was. *)
Theorem NodeHasForeignPods_only_known (nodeName : string) (pod : Pod) (ov : OverReserve) :
  match nrts ov !! nodeName with
  | Some _ =>
      (∀ other,
         nodesWithForeignPods (NodeHasForeignPods nodeName pod ov) !! other =
           if decide (other = nodeName)
           then Some (S (default 0 (nodesWithForeignPods ov !! nodeName)))
           else nodesWithForeignPods ov !! other)
      ∧ nrts (NodeHasForeignPods nodeName pod ov) = nrts ov
      ∧ assumedResources (NodeHasForeignPods nodeName pod ov) = assumedResources ov
      ∧ nodesMaybeOverreserved (NodeHasForeignPods nodeName pod ov)
        = nodesMaybeOverreserved ov
  | None => NodeHasForeignPods nodeName pod ov = ov
  end.
Proof.
  unfold NodeHasForeignPods. rewrite Contains_lookup.
  destruct (nrts ov !! nodeName); simpl; [|done].
  repeat split. intros other. apply Incr_lookup.
Qed.

(** C10: [NodeMaybeOverReserved] increments the counter of the node
    whatever the topology store holds, and leaves the store alone: the
    node is in the list of dirty nodes afterwards, also when the store
    has no snapshot for it. *)
Theorem NodeMaybeOverReserved_unconditional (nodeName : string) (pod : Pod)
    (ov : OverReserve) :
  nodesMaybeOverreserved (NodeMaybeOverReserved nodeName pod ov) !! nodeName
    = Some (S (default 0 (nodesMaybeOverreserved ov !! nodeName)))
  ∧ nodeName ∈ NodesMaybeOverReserved (NodeMaybeOverReserved nodeName pod ov)
  ∧ nrts (NodeMaybeOverReserved nodeName pod ov) = nrts ov.
Proof.
  assert (Hcnt : nodesMaybeOverreserved (NodeMaybeOverReserved nodeName pod ov) !! nodeName
                 = Some (S (default 0 (nodesMaybeOverreserved ov !! nodeName)))).
  { unfold NodeMaybeOverReserved; simpl. apply lookup_insert_eq. }
  split; [done|]. split; [|done].
  apply elem_of_NodesMaybeOverReserved. right. rewrite Hcnt. eauto.
Qed.

(** ** Reserve and unreserve *)

(** C7: [ReserveNodeResources] deletes the maybe-over-reserved entry of
    the node, so the node stays dirty only if it is flagged foreign; the
    maybe-over-reserved entries of the other nodes and the whole foreign
    counter are as before. *)
Theorem ReserveNodeResources_clears_counter (nodeName : string) (pod : Pod)
    (ov : OverReserve) :
  (∀ other,
     nodesMaybeOverreserved (ReserveNodeResources nodeName pod ov) !! other =
       if decide (other = nodeName) then None else nodesMaybeOverreserved ov !! other)
  ∧ nodesWithForeignPods (ReserveNodeResources nodeName pod ov) = nodesWithForeignPods ov
  ∧ (nodeName ∈ NodesMaybeOverReserved (ReserveNodeResources nodeName pod ov)
     ↔ is_Some (nodesWithForeignPods ov !! nodeName)).
Proof.
  assert (Hcnt : ∀ other,
     nodesMaybeOverreserved (ReserveNodeResources nodeName pod ov) !! other =
       if decide (other = nodeName) then None else nodesMaybeOverreserved ov !! other).
  { intros other. unfold ReserveNodeResources, Delete; simpl.
    case_decide as Hk; [subst; apply lookup_delete_eq | by apply lookup_delete_ne]. }
  split; [done|]. split; [done|].
  rewrite elem_of_NodesMaybeOverReserved, Hcnt.
  rewrite decide_True by done. simpl.
  split; [intros [?|[? ?]]; done | auto].
Qed.

(** C6: [UnreserveNodeResources] on a node without an overlay entry
    returns with the cache as it was: no entry is made for the node and
    no node's overlay, snapshot or counter changes. *)
Theorem UnreserveNodeResources_untracked (nodeName : string) (pod : Pod)
    (ov : OverReserve) :
  assumedResources ov !! nodeName = None →
  UnreserveNodeResources nodeName pod ov = ov
  ∧ assumedResources (UnreserveNodeResources nodeName pod ov) !! nodeName = None.
Proof.
  intros Hnone. unfold UnreserveNodeResources. by rewrite Hnone.
Qed.


(** The overlay store keeps the contract of the specification: adding a
    unit raises the accumulated charge by what the unit requests,
    removing it lowers the charge by the same, and removing a unit that
    is not charged changes nothing. *)
Lemma charged_AddPod (pod : Pod) (rs : resourceStore) (res : string) :
  rs !! PodLogID pod = None →
  charged (AddPod pod rs) res
  = (charged rs res + default 0%N (Requests pod !! res))%N.
Proof.
  intros Hnew. unfold charged, AddPod.
  rewrite map_fold_insert_L; [done| |done].
  intros. lia.
Qed.

Lemma charged_DeletePod (pod : Pod) (rs : resourceStore) (req : ResourceList)
    (res : string) :
  rs !! PodLogID pod = Some req →
  charged rs res = (charged (DeletePod pod rs) res + default 0%N (req !! res))%N.
Proof.
  intros Hreq. unfold charged, DeletePod.
  rewrite (map_fold_delete_L _ _ (PodLogID pod) req rs); [done| |done].
  intros. lia.
Qed.

Lemma DeletePod_unknown (pod : Pod) (rs : resourceStore) :
  rs !! PodLogID pod = None → DeletePod pod rs = rs.
Proof. apply delete_id. Qed.

Lemma DeletePod_AddPod (pod : Pod) (rs : resourceStore) :
  rs !! PodLogID pod = None → DeletePod pod (AddPod pod rs) = rs.
Proof.
  intros Hnew. unfold DeletePod, AddPod. rewrite delete_insert_eq. by apply delete_id.
Qed.

Lemma digestCheck_None (sign : list (string * string) -> string)
    (objs : list podData) (nodeName pfpExpected : string) (onlyExclRes : bool) :
  digestCheck sign objs nodeName pfpExpected onlyExclRes = None
  ↔ sign (scopedIdentifiers objs onlyExclRes) = pfpExpected.
Proof. unfold digestCheck. case_decide; naive_solver. Qed.

(** ** Flushing *)

Lemma nodeState_flushNode (ov : OverReserve) (nrt : NodeResourceTopology)
    (nodeName : string) :
  nodeState nodeName (flushNode ov nrt) =
    if decide (nodeName = nrtName nrt) then flushedState nrt else nodeState nodeName ov.
Proof.
  unfold nodeState, flushedState, flushNode, Update, Delete; simpl.
  case_decide as Hk.
  - subst. by rewrite lookup_insert_eq, !lookup_delete_eq.
  - by rewrite lookup_insert_ne, !lookup_delete_ne.
Qed.

Lemma FlushNodes_cons (nrt : NodeResourceTopology) (nrts : list NodeResourceTopology)
    (ov : OverReserve) :
  FlushNodes (nrt :: nrts) ov = FlushNodes nrts (flushNode ov nrt).
Proof. reflexivity. Qed.

(** A node none of the snapshots names is left as it was. *)
Lemma FlushNodes_other (nrts : list NodeResourceTopology) (ov : OverReserve)
    (nodeName : string) :
  nodeName ∉ map nrtName nrts →
  nodeState nodeName (FlushNodes nrts ov) = nodeState nodeName ov.
Proof.
  revert ov. induction nrts as [|nrt nrts IH]; intros ov Hnotin; [done|].
  rewrite FlushNodes_cons. cbn [map] in Hnotin. apply not_elem_of_cons in Hnotin as [Hne Hnotin].
  rewrite IH by done. rewrite nodeState_flushNode. by rewrite decide_False.
Qed.

(** A node named by one snapshot only (possibly given several times) is
    flushed with that snapshot. *)
Lemma FlushNodes_named (nrts : list NodeResourceTopology) (ov : OverReserve)
    (nrt : NodeResourceTopology) :
  nrt ∈ nrts →
  (∀ other, other ∈ nrts → nrtName other = nrtName nrt → other = nrt) →
  nodeState (nrtName nrt) (FlushNodes nrts ov) = flushedState nrt.
Proof.
  revert ov. induction nrts as [|x nrts IH]; intros ov Hin Huniq.
  - by apply elem_of_nil in Hin.
  - rewrite FlushNodes_cons.
    destruct (decide (nrtName nrt ∈ map nrtName nrts)) as [Hlater|Hlater].
    + apply list_elem_of_fmap in Hlater as [y [Hname Hy]].
      assert (y = nrt) as -> by (apply Huniq; [by right | done]).
      apply IH; [done|]. intros other Hother. apply Huniq. by right.
    + rewrite FlushNodes_other by done. rewrite nodeState_flushNode.
      apply elem_of_cons in Hin as [->|Hin].
      * by rewrite decide_True.
      * exfalso. apply Hlater. apply list_elem_of_fmap. eauto.
Qed.

Lemma FlushNodes_dom (nrts : list NodeResourceTopology) (ov : OverReserve) :
  dom (assumedResources (FlushNodes nrts ov))
  = dom (assumedResources ov) ∖ list_to_set (map nrtName nrts).
Proof.
  revert ov. induction nrts as [|nrt nrts IH]; intros ov.
  - simpl. set_solver.
  - rewrite FlushNodes_cons, IH. simpl. rewrite dom_delete_L. set_solver.
Qed.

(** ** The roster map *)

Section RosterFacts.

Variable podFingerprintForNodeTopology :
  NodeResourceTopology -> CacheResyncMethod -> string * bool.
Variable checkPodFingerprintForNode :
  list podData -> string -> string -> bool -> option FingerprintError.
Variable isPodRelevant : Pod -> bool.
Variable AreExclusiveForPod : Pod -> bool.

Local Abbreviation liveRoster' := (liveRoster isPodRelevant AreExclusiveForPod).
Local Abbreviation addPodData' := (addPodData isPodRelevant AreExclusiveForPod).

(** The entry of a node once the units of a listing are added to a map:
    untouched when no relevant unit is on the node, and otherwise
    extended by the node's roster. *)
Lemma addPodData_fold (pods : list Pod) (m : gmap string (list podData))
    (nodeName : string) :
  fold_left addPodData' pods m !! nodeName =
    match liveRoster' pods nodeName with
    | [] => m !! nodeName
    | roster => Some (default [] (m !! nodeName) ++ roster)%list
    end.
Proof.
  revert m. induction pods as [|pod pods IH]; intros m; [done|].
  cbn [fold_left]. rewrite IH. unfold liveRoster, addPodData. cbn [List.filter].
  destruct (isPodRelevant pod); cbn [negb andb]; [|done].
  case_bool_decide as Hnode; cbn [map].
  - subst nodeName. rewrite lookup_insert_eq.
    destruct (map _ (List.filter _ pods)) as [|obj objs]; [done|].
    cbn [default from_option id]. by rewrite <- app_assoc.
  - by rewrite lookup_insert_ne.
Qed.

(** [makeNodeToPodDataMap] holds the live roster of each node that has
    one, and no entry for the nodes without relevant units. *)
Lemma makeNodeToPodDataMap_roster (pods : list Pod) (nodeName : string) :
  ∃ m, makeNodeToPodDataMap isPodRelevant AreExclusiveForPod (Some pods) = Some m
       ∧ m !! nodeName =
           match liveRoster' pods nodeName with
           | [] => None
           | roster => Some roster
           end.
Proof.
  eexists. split; [reflexivity|]. rewrite addPodData_fold, lookup_empty.
  by destruct (liveRoster' pods nodeName).
Qed.

End RosterFacts.

(** ** Resync *)

Section ResyncFacts.

Variable podFingerprintForNodeTopology :
  NodeResourceTopology -> CacheResyncMethod -> string * bool.
Variable checkPodFingerprintForNode :
  list podData -> string -> string -> bool -> option FingerprintError.
Variable isPodRelevant : Pod -> bool.
Variable AreExclusiveForPod : Pod -> bool.

Local Abbreviation Resync' :=
  (Resync podFingerprintForNodeTopology checkPodFingerprintForNode isPodRelevant AreExclusiveForPod).
Local Abbreviation resyncCandidate' :=
  (resyncCandidate podFingerprintForNodeTopology checkPodFingerprintForNode).
Local Abbreviation addPodData' := (addPodData isPodRelevant AreExclusiveForPod).
Local Abbreviation fingerprintMatches' :=
  (fingerprintMatches podFingerprintForNodeTopology checkPodFingerprintForNode isPodRelevant AreExclusiveForPod).

(** C5: with dirty nodes at hand, a failure of the listing of the
    workload units ends [Resync] at once: nothing is flushed and the
    topology store, the overlay store and both counters are as before
    the call. *)
Theorem Resync_listing_failure (client : string -> option NodeResourceTopology)
    (ov : OverReserve) :
  NodesMaybeOverReserved ov ≠ [] →
  Resync' None client ov = (ov, ListingFailed).
Proof.
  intros Hdirty. unfold Resync.
  destruct (decide (length (NodesMaybeOverReserved ov) = 0)) as [Hlen|Hlen].
  - apply length_zero_iff_nil in Hlen. contradiction.
  - reflexivity.
Qed.

(** The loop of [Resync] keeps the fetched snapshot of a node exactly
    when its digest matches the one of the node's live roster. *)
Lemma resyncCandidate_matches (pods : list Pod)
    (client : string -> option NodeResourceTopology) (method : CacheResyncMethod)
    (nodeName : string) (nrt : NodeResourceTopology) :
  resyncCandidate' client (fold_left addPodData' pods ∅) method nodeName = Some nrt
  ↔ fingerprintMatches' (Some pods) client method nodeName nrt.
Proof.
  unfold resyncCandidate, fingerprintMatches.
  rewrite addPodData_fold, lookup_empty.
  destruct (client nodeName) as [cand|]; [|naive_solver].
  destruct (liveRoster isPodRelevant AreExclusiveForPod pods nodeName)
    as [|obj objs] eqn:Hroster.
  { split; [done|]. intros [_ (pods' & [= <-] & Hne & _)]. by rewrite Hroster in Hne. }
  destruct (podFingerprintForNodeTopology cand method) as [pfp excl] eqn:Hpfp.
  cbn [default from_option id app]. split.
  - case_decide as Hmissing; [done|].
    destruct (checkPodFingerprintForNode (obj :: objs) nodeName pfp excl)
      as [[]|] eqn:Hcheck; try done.
    intros [= <-]. split; [done|]. exists pods. rewrite Hroster, Hpfp. simpl.
    by repeat split.
  - intros [[= <-] (pods' & [= <-] & _ & Hdigest & Hcheck)].
    rewrite Hroster, Hpfp in *. simpl in *.
    rewrite decide_False by done. by rewrite Hcheck.
Qed.

Lemma resyncCandidate_fetched (client : string -> option NodeResourceTopology)
    (m : gmap string (list podData)) (method : CacheResyncMethod)
    (nodeName : string) (nrt : NodeResourceTopology) :
  resyncCandidate' client m method nodeName = Some nrt → client nodeName = Some nrt.
Proof.
  unfold resyncCandidate. destruct (client nodeName) as [cand|]; [|done].
  destruct (m !! nodeName); [|done].
  destruct (podFingerprintForNodeTopology cand method) as [pfp excl].
  case_decide; [done|].
  destruct (checkPodFingerprintForNode _ nodeName pfp excl) as [[]|]; congruence.
Qed.

(** C2: a run of [Resync], with a client that answers a fetch by name
    with the snapshot of that name, flushes a dirty node whose fetched
    snapshot carries a digest that matches the digest of its live roster
    (fresh snapshot stored, overlay entry and both counter entries
    gone), and leaves every other node as it was: in particular the
    dirty nodes with a mismatch, without a digest, with a failed fetch
    or without a roster keep their markers and their overlay. *)
Theorem Resync_flushes_exactly_matching (podLister : option (list Pod))
    (client : string -> option NodeResourceTopology) (ov : OverReserve)
    (nodeName : string) :
  (∀ n nrt, client n = Some nrt → nrtName nrt = n) →
  (∀ nrt,
     nodeName ∈ NodesMaybeOverReserved ov →
     fingerprintMatches' podLister client (resyncMethod ov) nodeName nrt →
     nodeState nodeName (Resync' podLister client ov).1 = flushedState nrt)
  ∧ (¬ (nodeName ∈ NodesMaybeOverReserved ov
        ∧ ∃ nrt, fingerprintMatches' podLister client (resyncMethod ov) nodeName nrt) →
     nodeState nodeName (Resync' podLister client ov).1 = nodeState nodeName ov).
Proof.
  intros Hbyname. unfold Resync.
  destruct (decide (length (NodesMaybeOverReserved ov) = 0)) as [Hlen|Hlen].
  { apply length_zero_iff_nil in Hlen. rewrite Hlen. split; [|done].
    intros nrt Hin. by apply elem_of_nil in Hin. }
  destruct podLister as [pods|]; simpl.
  2:{ split; [|done]. by intros nrt _ [_ (pods & ? & _)]. }
  split.
  - intros nrt Hdirty Hmatch.
    assert (nrtName nrt = nodeName) as Hname by (apply Hbyname, Hmatch).
    rewrite <- Hname. apply FlushNodes_named.
    + apply list_elem_of_omap. exists nodeName. split; [done|].
      by apply resyncCandidate_matches.
    + intros other Hother Hsame. apply list_elem_of_omap in Hother as (n & _ & Hcand).
      apply resyncCandidate_fetched in Hcand.
      assert (n = nodeName) as -> by (rewrite <- (Hbyname _ _ Hcand); congruence).
      destruct Hmatch as [Hfetch _]. congruence.
  - intros Hno. apply FlushNodes_other. intros Hin.
    apply list_elem_of_fmap in Hin as (x & Hname & Hx).
    apply list_elem_of_omap in Hx as (n & Hn & Hcand).
    assert (n = nodeName) as ->.
    { rewrite Hname. symmetry. eapply Hbyname, resyncCandidate_fetched, Hcand. }
    apply Hno. split; [done|]. exists x. by apply resyncCandidate_matches.
Qed.

End ResyncFacts.

(** ** The overlay in the adjusted view *)

Lemma clampSub_Z (a b : Quantity) :
  clampSub a b = Z.to_N (Z.max 0 (Z.of_N a - Z.of_N b)).
Proof. unfold clampSub. destruct (N.ltb_spec a b); lia. Qed.

Lemma UpdateNRT_singleton (key : string) (req : ResourceList)
    (nrt : NodeResourceTopology) :
  UpdateNRT {[key := req]} nrt = lessRequestedNRT req nrt.
Proof.
  unfold UpdateNRT, lessRequestedNRT. f_equal.
  apply map_ext. intros zone. unfold updateZone. f_equal.
  apply map_ext. intros zr. unfold updateResource, lessRequested.
  by rewrite charged_singleton, clampSub_Z.
Qed.

Lemma GetCachedNRTCopy_tracked (nodeName : string) (pod : Pod) (ov : OverReserve)
    (nrt : NodeResourceTopology) :
  nodesWithForeignPods ov !! nodeName = None →
  nrts ov !! nodeName = Some nrt →
  GetCachedNRTCopy nodeName pod ov
  = (Some (UpdateNRT (default ∅ (assumedResources ov !! nodeName)) nrt), true).
Proof.
  intros Hforeign Hnrt. unfold GetCachedNRTCopy, GetNRTCopyByNodeName.
  rewrite IsSet_lookup, Hforeign, Hnrt.
  destruct (assumedResources ov !! nodeName); simpl; [done|].
  by rewrite UpdateNRT_empty.
Qed.

Lemma ReserveNodeResources_overlay (nodeName : string) (pod : Pod) (ov : OverReserve) :
  assumedResources (ReserveNodeResources nodeName pod ov) !! nodeName
  = Some (AddPod pod (default ∅ (assumedResources ov !! nodeName))).
Proof.
  unfold ReserveNodeResources; simpl. rewrite lookup_insert_eq.
  by destruct (assumedResources ov !! nodeName).
Qed.

Lemma UnreserveNodeResources_overlay (nodeName : string) (pod : Pod) (ov : OverReserve) :
  assumedResources (UnreserveNodeResources nodeName pod ov) !! nodeName
  = DeletePod pod <$> assumedResources ov !! nodeName.
Proof.
  unfold UnreserveNodeResources.
  destruct (assumedResources ov !! nodeName) as [rs|] eqn:Hrs; simpl.
  - by rewrite lookup_insert_eq.
  - by rewrite Hrs.
Qed.

Lemma UnreserveNodeResources_frame (nodeName : string) (pod : Pod) (ov : OverReserve) :
  nrts (UnreserveNodeResources nodeName pod ov) = nrts ov
  ∧ nodesWithForeignPods (UnreserveNodeResources nodeName pod ov)
    = nodesWithForeignPods ov.
Proof.
  unfold UnreserveNodeResources. by destruct (assumedResources ov !! nodeName).
Qed.

(** C3, as amended: on a node with a stored snapshot, not flagged as
    having foreign units and with no charge outstanding, reserve then
    getCachedCopy yields the stored snapshot with, in every zone, the
    available quantity of each resource less what the unit requests of
    it, clamped at zero. *)
Theorem reserve_then_get (nodeName : string) (pod reader : Pod) (ov : OverReserve)
    (nrt : NodeResourceTopology) :
  nrts ov !! nodeName = Some nrt →
  nodesWithForeignPods ov !! nodeName = None →
  default ∅ (assumedResources ov !! nodeName) = ∅ →
  GetCachedNRTCopy nodeName reader (ReserveNodeResources nodeName pod ov)
  = (Some (lessRequestedNRT (Requests pod) nrt), true).
Proof.
  intros Hnrt Hforeign Hfree.
  rewrite (GetCachedNRTCopy_tracked _ _ _ nrt) by done.
  rewrite ReserveNodeResources_overlay, Hfree. simpl.
  unfold AddPod. rewrite insert_empty. by rewrite UpdateNRT_singleton.
Qed.

(** C4, as amended: on a node with a stored snapshot, not flagged as
    having foreign units and with no charge outstanding, reserve
    followed by unreserve of the same unit brings the adjusted view back
    to the un-overlaid stored snapshot, the view before the reserve. *)
Theorem reserve_unreserve_round_trip (nodeName : string) (pod reader : Pod)
    (ov : OverReserve) :
  is_Some (nrts ov !! nodeName) →
  nodesWithForeignPods ov !! nodeName = None →
  default ∅ (assumedResources ov !! nodeName) = ∅ →
  viewIsStored nodeName reader
    (UnreserveNodeResources nodeName pod (ReserveNodeResources nodeName pod ov))
  ∧ GetCachedNRTCopy nodeName reader
      (UnreserveNodeResources nodeName pod (ReserveNodeResources nodeName pod ov))
    = GetCachedNRTCopy nodeName reader ov.
Proof.
  intros [nrt Hnrt] Hforeign Hfree.
  destruct (UnreserveNodeResources_frame nodeName pod
              (ReserveNodeResources nodeName pod ov)) as [Hstore Hflag].
  assert (Hview : GetCachedNRTCopy nodeName reader
            (UnreserveNodeResources nodeName pod (ReserveNodeResources nodeName pod ov))
          = (Some nrt, true)).
  { rewrite (GetCachedNRTCopy_tracked _ _ _ nrt) by (by rewrite ?Hstore, ?Hflag).
    rewrite UnreserveNodeResources_overlay, ReserveNodeResources_overlay, Hfree.
    simpl. unfold DeletePod, AddPod.
    rewrite delete_insert_eq, delete_empty. by rewrite UpdateNRT_empty. }
  split.
  - exists nrt. by rewrite Hstore.
  - rewrite Hview, (GetCachedNRTCopy_tracked _ _ _ nrt) by done.
    by rewrite Hfree, UpdateNRT_empty.
Qed.

(** ** The keys of the overlay store *)

Section TraceFacts.

Variable podFingerprintForNodeTopology :
  NodeResourceTopology -> CacheResyncMethod -> string * bool.
Variable checkPodFingerprintForNode :
  list podData -> string -> string -> bool -> option FingerprintError.
Variable isPodRelevant : Pod -> bool.
Variable AreExclusiveForPod : Pod -> bool.

Local Abbreviation step' :=
  (step podFingerprintForNodeTopology checkPodFingerprintForNode isPodRelevant AreExclusiveForPod).
Local Abbreviation run' :=
  (run podFingerprintForNodeTopology checkPodFingerprintForNode isPodRelevant AreExclusiveForPod).
Local Abbreviation bookReserved' :=
  (bookReserved podFingerprintForNodeTopology checkPodFingerprintForNode isPodRelevant AreExclusiveForPod).
Local Abbreviation reservedFrom' :=
  (reservedFrom podFingerprintForNodeTopology checkPodFingerprintForNode isPodRelevant AreExclusiveForPod).
Local Abbreviation reservedSinceFlush' :=
  (reservedSinceFlush podFingerprintForNodeTopology checkPodFingerprintForNode isPodRelevant
                      AreExclusiveForPod).

(** Every operation changes the keys of the overlay store as the book
    of reserved nodes says. *)
Lemma step_overlay_keys (op : Op) (ov : OverReserve) :
  dom (assumedResources (step' op ov)) = bookReserved' op ov (dom (assumedResources ov)).
Proof.
  destruct op as [n p|n p|n p|n p|n p| |podLister client|snapshots|n p];
    cbn [step bookReserved flushedBy PostBind].
  - set_solver.
  - unfold NodeMaybeOverReserved; simpl. set_solver.
  - unfold NodeHasForeignPods. destruct (Contains n (nrts ov)); simpl; set_solver.
  - unfold ReserveNodeResources; simpl. by rewrite dom_insert_L.
  - unfold UnreserveNodeResources.
    destruct (assumedResources ov !! n) as [rs|] eqn:Hrs; simpl; [|set_solver].
    rewrite dom_insert_L. apply elem_of_dom_2 in Hrs. set_solver.
  - set_solver.
  - unfold Resync.
    destruct (decide (length (NodesMaybeOverReserved ov) = 0)); simpl; [set_solver|].
    destruct (makeNodeToPodDataMap isPodRelevant AreExclusiveForPod podLister);
      simpl; [|set_solver].
    apply FlushNodes_dom.
  - apply FlushNodes_dom.
  - set_solver.
Qed.

Lemma run_overlay_keys (ops : list Op) (ov : OverReserve) (seen : gset string) :
  dom (assumedResources ov) = seen →
  dom (assumedResources (run' ops ov)) = reservedFrom' ops ov seen.
Proof.
  revert ov seen. induction ops as [|op ops IH]; intros ov seen Hseen; [done|].
  unfold run. cbn [fold_left reservedFrom]. apply IH.
  by rewrite step_overlay_keys, Hseen.
Qed.

(** C9, as amended: in every state reached from a new cache by the
    public operations, a node is a key of the overlay store exactly when
    a reservation was made for it through reserve and it has not been
    flushed since; unreserve leaves the entry of the node in place. *)
Theorem overlay_keys_reserved_since_flush (cfg : option (option CacheResyncMethod))
    (client : option (option (list NodeResourceTopology))) (podLister : bool)
    (ov0 : OverReserve) (ops : list Op) (nodeName : string) :
  NewOverReserve cfg client podLister = Some ov0 →
  is_Some (assumedResources (run' ops ov0) !! nodeName)
  ↔ nodeName ∈ reservedSinceFlush' ops ov0.
Proof.
  intros Hnew. rewrite <- elem_of_dom. unfold reservedSinceFlush.
  rewrite (run_overlay_keys ops ov0 ∅); [done|].
  unfold NewOverReserve in Hnew.
  destruct client as [[items|]|]; destruct podLister; try done.
  injection Hnew as <-. simpl. apply dom_empty_L.
Qed.

End TraceFacts.

(** ** The list of dirty nodes *)

(** X1: [NodesMaybeOverReserved] returns the union of the nodes flagged
    foreign and the nodes marked maybe over-reserved, each node once,
    also when it carries both marks. *)
Theorem NodesMaybeOverReserved_union (ov : OverReserve) :
  NoDup (NodesMaybeOverReserved ov)
  ∧ ∀ nodeName,
      nodeName ∈ NodesMaybeOverReserved ov
      ↔ IsSet nodeName (nodesWithForeignPods ov) = true
        ∨ IsSet nodeName (nodesMaybeOverreserved ov) = true.
Proof.
  split; [apply NoDup_NodesMaybeOverReserved|].
  intros nodeName. rewrite elem_of_NodesMaybeOverReserved, !IsSet_lookup.
  destruct (nodesWithForeignPods ov !! nodeName),
           (nodesMaybeOverreserved ov !! nodeName);
    split; intros [H|H]; eauto; try done; by inversion H.
Qed.

(** ** What a flush leaves behind *)

Lemma lastNamed_None (nodeName : string) (nrts : list NodeResourceTopology) :
  lastNamed nodeName nrts = None ↔ nodeName ∉ map nrtName nrts.
Proof.
  induction nrts as [|nrt nrts IH]; simpl.
  - split; [intros _; apply not_elem_of_nil | done].
  - rewrite not_elem_of_cons, <- IH.
    destruct (lastNamed nodeName nrts); [naive_solver|].
    case_decide; naive_solver.
Qed.

Lemma lastNamed_Some (nodeName : string) (nrts : list NodeResourceTopology)
    (nrt : NodeResourceTopology) :
  lastNamed nodeName nrts = Some nrt → nrt ∈ nrts ∧ nrtName nrt = nodeName.
Proof.
  induction nrts as [|x nrts IH]; simpl; [done|].
  destruct (lastNamed nodeName nrts) as [later|].
  - intros [= <-]. destruct IH as [Hin Hname]; [done|]. split; [by right | done].
  - case_decide; [|done]. intros [= <-]. split; [by left | done].
Qed.

Lemma nodeState_FlushNodes (nrts : list NodeResourceTopology) (ov : OverReserve)
    (nodeName : string) :
  nodeState nodeName (FlushNodes nrts ov) =
    match lastNamed nodeName nrts with
    | Some nrt => flushedState nrt
    | None => nodeState nodeName ov
    end.
Proof.
  revert ov. induction nrts as [|nrt nrts IH]; intros ov; [done|].
  rewrite FlushNodes_cons, IH. cbn [lastNamed].
  destruct (lastNamed nodeName nrts); [done|].
  rewrite nodeState_flushNode. by repeat case_decide.
Qed.

Lemma resyncMethod_FlushNodes (nrts : list NodeResourceTopology) (ov : OverReserve) :
  resyncMethod (FlushNodes nrts ov) = resyncMethod ov.
Proof.
  revert ov. induction nrts as [|nrt nrts IH]; intros ov; [done|].
  by rewrite FlushNodes_cons, IH.
Qed.

(** Two caches with the same entries for every node and the same resync
    method are the same cache. *)
Lemma OverReserve_ext (a b : OverReserve) :
  (∀ nodeName, nodeState nodeName a = nodeState nodeName b) →
  resyncMethod a = resyncMethod b →
  a = b.
Proof.
  destruct a as [na aa ma fa ra], b as [nb ab mb fb rb]. unfold nodeState; simpl.
  intros Hstate ->.
  assert (na = nb) as -> by (apply map_eq; intros i; by injection (Hstate i)).
  assert (aa = ab) as -> by (apply map_eq; intros i; by injection (Hstate i)).
  assert (ma = mb) as -> by (apply map_eq; intros i; by injection (Hstate i)).
  assert (fa = fb) as -> by (apply map_eq; intros i; by injection (Hstate i)).
  done.
Qed.

Lemma dirty_nodeState (ov : OverReserve) (nodeName : string) :
  nodeName ∈ NodesMaybeOverReserved ov
  ↔ is_Some (nodeState nodeName ov).2 ∨ is_Some (nodeState nodeName ov).1.2.
Proof. by rewrite elem_of_NodesMaybeOverReserved. Qed.

(** X2: after [FlushNodes] the dirty nodes are the nodes that were dirty
    before and are not named by a flushed snapshot: a flush cleans the
    nodes it names and makes no node dirty. *)
Theorem FlushNodes_dirty (nrts : list NodeResourceTopology) (ov : OverReserve)
    (nodeName : string) :
  nodeName ∈ NodesMaybeOverReserved (FlushNodes nrts ov)
  ↔ nodeName ∈ NodesMaybeOverReserved ov ∧ nodeName ∉ map nrtName nrts.
Proof.
  rewrite !dirty_nodeState, nodeState_FlushNodes, <- lastNamed_None.
  destruct (lastNamed nodeName nrts); simpl; [|naive_solver].
  split; [intros [[? ?]|[? ?]]; done | intros [_ ?]; done].
Qed.

(** X3: once [FlushNodes] ran, [GetCachedNRTCopy] hands out, for a node
    named by a flushed snapshot, the last snapshot given for the node,
    without any overlay and whatever the node's flags and charges were. *)
Theorem FlushNodes_then_get (nrts : list NodeResourceTopology) (ov : OverReserve)
    (nrt : NodeResourceTopology) (reader : Pod) :
  lastNamed (nrtName nrt) nrts = Some nrt →
  GetCachedNRTCopy (nrtName nrt) reader (FlushNodes nrts ov) = (Some nrt, true).
Proof.
  intros Hlast.
  pose proof (nodeState_FlushNodes nrts ov (nrtName nrt)) as Hstate.
  rewrite Hlast in Hstate. unfold nodeState, flushedState in Hstate.
  injection Hstate as Hstore Hoverlay Hmaybe Hforeign.
  rewrite (GetCachedNRTCopy_tracked _ _ _ nrt) by done.
  by rewrite Hoverlay, UpdateNRT_empty.
Qed.

(** X4: flushing the same snapshots a second time changes nothing. *)
Theorem FlushNodes_idempotent (nrts : list NodeResourceTopology) (ov : OverReserve) :
  FlushNodes nrts (FlushNodes nrts ov) = FlushNodes nrts ov.
Proof.
  apply OverReserve_ext; [|apply resyncMethod_FlushNodes].
  intros nodeName. rewrite (nodeState_FlushNodes nrts (FlushNodes nrts ov)).
  destruct (lastNamed nodeName nrts) eqn:Hlast; [|done].
  by rewrite nodeState_FlushNodes, Hlast.
Qed.

(** ** Marks and the adjusted view *)

(** X5: after [NodeHasForeignPods] on a node the topology store knows,
    [GetCachedNRTCopy] withholds the view of that node; the view of every
    other node, and of a node the store does not know, is as before. *)
Theorem NodeHasForeignPods_then_get (nodeName other : string) (pod reader : Pod)
    (ov : OverReserve) :
  GetCachedNRTCopy other reader (NodeHasForeignPods nodeName pod ov) =
    if bool_decide (other = nodeName) && Contains nodeName (nrts ov)
    then (None, false)
    else GetCachedNRTCopy other reader ov.
Proof.
  unfold NodeHasForeignPods.
  destruct (Contains nodeName (nrts ov)); simpl; [|by rewrite andb_false_r].
  rewrite andb_true_r. unfold GetCachedNRTCopy; simpl.
  rewrite !IsSet_lookup. case_bool_decide as Hother.
  - subst. by rewrite lookup_insert_eq.
  - by rewrite lookup_insert_ne.
Qed.

(** X6: [NodeMaybeOverReserved] adds the node to the dirty nodes, takes
    none off the list, and changes the view [GetCachedNRTCopy] hands out
    for no node. *)
Theorem NodeMaybeOverReserved_view (nodeName other : string) (pod reader : Pod)
    (ov : OverReserve) :
  GetCachedNRTCopy other reader (NodeMaybeOverReserved nodeName pod ov)
  = GetCachedNRTCopy other reader ov
  ∧ (other ∈ NodesMaybeOverReserved (NodeMaybeOverReserved nodeName pod ov)
     ↔ other = nodeName ∨ other ∈ NodesMaybeOverReserved ov).
Proof.
  split; [reflexivity|].
  rewrite !elem_of_NodesMaybeOverReserved.
  unfold NodeMaybeOverReserved; simpl.
  destruct (decide (other = nodeName)) as [->|Hne].
  - rewrite lookup_insert_eq. split; [auto | intros _; right; eauto].
  - rewrite lookup_insert_ne by done. naive_solver.
Qed.

(** X7: [ReserveNodeResources] and [UnreserveNodeResources] on a node
    leave the snapshot, the overlay entry and both counter entries of
    every other node as they were. *)
Theorem reserve_unreserve_frame (nodeName other : string) (pod : Pod)
    (ov : OverReserve) :
  other ≠ nodeName →
  nodeState other (ReserveNodeResources nodeName pod ov) = nodeState other ov
  ∧ nodeState other (UnreserveNodeResources nodeName pod ov) = nodeState other ov.
Proof.
  intros Hother. split.
  - unfold nodeState, ReserveNodeResources, Delete; simpl.
    by rewrite lookup_insert_ne, lookup_delete_ne.
  - unfold UnreserveNodeResources.
    destruct (assumedResources ov !! nodeName); [|done].
    unfold nodeState; simpl. by rewrite lookup_insert_ne.
Qed.

(** ** A new cache *)

(** X8: [NewOverReserve] makes a cache only when the client and the pod
    lister are there and the listing of the snapshots succeeds; the new
    cache has no dirty node, and [GetCachedNRTCopy] hands out for every
    node the stored snapshot as it is, or (nil, true) when there is none. *)
Theorem NewOverReserve_clean (cfg : option (option CacheResyncMethod))
    (client : option (option (list NodeResourceTopology))) (podLister : bool)
    (ov : OverReserve) :
  NewOverReserve cfg client podLister = Some ov →
  (podLister = true ∧ ∃ nrtObjs, client = Some (Some nrtObjs))
  ∧ NodesMaybeOverReserved ov = []
  ∧ ∀ nodeName reader,
      GetCachedNRTCopy nodeName reader ov = (nrts ov !! nodeName, true).
Proof.
  unfold NewOverReserve.
  destruct client as [[nrtObjs|]|]; destruct podLister; try done.
  intros [= <-]. split; [eauto|]. split; [done|].
  intros nodeName reader. unfold GetCachedNRTCopy, GetNRTCopyByNodeName; simpl.
  rewrite IsSet_lookup. unfold newCounter. rewrite !lookup_empty.
  by destruct (newNrtStore nrtObjs !! nodeName).
Qed.

(** ** The identifier of a unit *)

Lemma append_slash_inj (a b x y : string) :
  hasSlash a = false → hasSlash b = false →
  a ++ String "/" x = b ++ String "/" y → a = b ∧ x = y.
Proof.
  revert b. induction a as [|c a IH]; intros [|d b] Ha Hb Heq;
    cbv [String.append] in Heq; fold String.append in Heq; simpl in Ha, Hb.
  - by injection Heq as ->.
  - injection Heq as <- _. by rewrite bool_decide_true in Hb.
  - injection Heq as -> _. by rewrite bool_decide_true in Ha.
  - injection Heq as -> Heq.
    apply orb_false_elim in Ha as [_ Ha]. apply orb_false_elim in Hb as [_ Hb].
    by destruct (IH b Ha Hb Heq) as [-> ->].
Qed.

(** X9: [PodLogID] tells apart any two units that differ in namespace or
    name, as long as their namespaces hold no slash. *)
Theorem PodLogID_inj (p q : Pod) :
  hasSlash (Namespace p) = false →
  hasSlash (Namespace q) = false →
  PodLogID p = PodLogID q →
  Namespace p = Namespace q ∧ Name p = Name q.
Proof. intros Hp Hq. unfold PodLogID. exact (append_slash_inj _ _ _ _ Hp Hq). Qed.

(** ** Runs of Resync *)

Section MoreResyncFacts.

Variable podFingerprintForNodeTopology :
  NodeResourceTopology -> CacheResyncMethod -> string * bool.
Variable checkPodFingerprintForNode :
  list podData -> string -> string -> bool -> option FingerprintError.
Variable isPodRelevant : Pod -> bool.
Variable AreExclusiveForPod : Pod -> bool.

Local Abbreviation Resync' :=
  (Resync podFingerprintForNodeTopology checkPodFingerprintForNode isPodRelevant
          AreExclusiveForPod).
Local Abbreviation resyncCandidate' :=
  (resyncCandidate podFingerprintForNodeTopology checkPodFingerprintForNode).
Local Abbreviation step' :=
  (step podFingerprintForNodeTopology checkPodFingerprintForNode isPodRelevant
        AreExclusiveForPod).
Local Abbreviation run' :=
  (run podFingerprintForNodeTopology checkPodFingerprintForNode isPodRelevant
       AreExclusiveForPod).
Local Abbreviation flushedBy' :=
  (flushedBy podFingerprintForNodeTopology checkPodFingerprintForNode isPodRelevant
             AreExclusiveForPod).
Local Abbreviation flushedAlong' :=
  (flushedAlong podFingerprintForNodeTopology checkPodFingerprintForNode
                isPodRelevant AreExclusiveForPod).

(** With a client that answers by name, the snapshots the loop of
    [Resync] keeps are fetched for the dirty nodes they name. *)
Lemma resyncUpdates_named (client : string -> option NodeResourceTopology)
    (m : gmap string (list podData)) (method : CacheResyncMethod)
    (nodeNames : list string) (nrt : NodeResourceTopology) :
  (∀ n x, client n = Some x → nrtName x = n) →
  nrt ∈ omap (resyncCandidate' client m method) nodeNames →
  nrtName nrt ∈ nodeNames
  ∧ resyncCandidate' client m method (nrtName nrt) = Some nrt.
Proof.
  intros Hbyname Hin. apply list_elem_of_omap in Hin as (n & Hn & Hcand).
  pose proof (resyncCandidate_fetched _ _ _ _ _ _ _ Hcand) as Hfetch.
  apply Hbyname in Hfetch. by subst n.
Qed.

Lemma omap_all_None {A B} (f : A → option B) (l : list A) :
  (∀ x, x ∈ l → f x = None) → omap f l = [].
Proof.
  induction l as [|x l IH]; intros Hnone; [done|]. simpl.
  rewrite (Hnone x) by (by left). apply IH. intros y Hy. apply Hnone. by right.
Qed.

(** X10: with no node flagged foreign and none marked maybe
    over-reserved, [Resync] returns at once with the cache as it is,
    whatever the lister and the client would answer. *)
Theorem Resync_no_dirty (podLister : option (list Pod))
    (client : string -> option NodeResourceTopology) (ov : OverReserve) :
  nodesWithForeignPods ov = ∅ →
  nodesMaybeOverreserved ov = ∅ →
  Resync' podLister client ov = (ov, NoDirtyNodes).
Proof.
  intros Hforeign Hmaybe. unfold Resync.
  assert (NodesMaybeOverReserved ov = []) as ->; [|done].
  unfold NodesMaybeOverReserved, Clone, Keys.
  rewrite Hforeign, Hmaybe, map_to_list_empty. simpl. by rewrite map_to_list_empty.
Qed.

(** X11: with a client that answers by name, a node whose fetch fails
    keeps its snapshot, its overlay entry and its counter entries through
    a run of [Resync], and is still listed dirty if it was. *)
Theorem Resync_fetch_failure (podLister : option (list Pod))
    (client : string -> option NodeResourceTopology) (ov : OverReserve)
    (nodeName : string) :
  (∀ n x, client n = Some x → nrtName x = n) →
  client nodeName = None →
  nodeState nodeName (Resync' podLister client ov).1 = nodeState nodeName ov
  ∧ (nodeName ∈ NodesMaybeOverReserved ov →
     nodeName ∈ NodesMaybeOverReserved (Resync' podLister client ov).1).
Proof.
  intros Hbyname Hfail.
  assert (Hstate : nodeState nodeName (Resync' podLister client ov).1
                   = nodeState nodeName ov).
  { unfold Resync.
    destruct (decide (length (NodesMaybeOverReserved ov) = 0)); [done|].
    destruct (makeNodeToPodDataMap isPodRelevant AreExclusiveForPod podLister)
      as [m|]; [|done].
    simpl. apply FlushNodes_other. intros Hin.
    apply list_elem_of_fmap in Hin as (x & Hname & Hx).
    apply (resyncUpdates_named _ _ _ _ _ Hbyname) in Hx as [_ Hcand].
    apply resyncCandidate_fetched in Hcand. congruence. }
  split; [done|]. by rewrite !dirty_nodeState, Hstate.
Qed.

(** X12: with a client that answers by name, a completed run of [Resync]
    flushes dirty nodes only, and the nodes dirty afterwards are the
    dirty nodes it did not flush. *)
Theorem Resync_flushes_dirty_only (podLister : option (list Pod))
    (client : string -> option NodeResourceTopology) (ov : OverReserve)
    (flushed : list string) :
  (∀ n x, client n = Some x → nrtName x = n) →
  (Resync' podLister client ov).2 = ResyncComplete flushed →
  (∀ nodeName, nodeName ∈ flushed → nodeName ∈ NodesMaybeOverReserved ov)
  ∧ (∀ nodeName,
       nodeName ∈ NodesMaybeOverReserved (Resync' podLister client ov).1
       ↔ nodeName ∈ NodesMaybeOverReserved ov ∧ nodeName ∉ flushed).
Proof.
  intros Hbyname. unfold Resync.
  destruct (decide (length (NodesMaybeOverReserved ov) = 0)); [done|].
  destruct (makeNodeToPodDataMap isPodRelevant AreExclusiveForPod podLister)
    as [m|]; [|done].
  simpl. intros [= <-]. split.
  - intros nodeName Hin. apply list_elem_of_fmap in Hin as (x & -> & Hx).
    by apply (resyncUpdates_named _ _ _ _ _ Hbyname) in Hx as [Hdirty _].
  - intros nodeName.
    rewrite !dirty_nodeState, nodeState_FlushNodes, <- lastNamed_None.
    destruct (lastNamed nodeName _); simpl; [|naive_solver].
    split; [intros [[? ?]|[? ?]]; done | intros [_ ?]; done].
Qed.

(** X13: with a client that answers by name, a second run of [Resync]
    on the same answers of the lister and the client changes nothing:
    what the first run left dirty does not pass the checks either. *)
Theorem Resync_twice (podLister : option (list Pod))
    (client : string -> option NodeResourceTopology) (ov : OverReserve) :
  (∀ n x, client n = Some x → nrtName x = n) →
  (Resync' podLister client (Resync' podLister client ov).1).1
  = (Resync' podLister client ov).1.
Proof.
  intros Hbyname. unfold Resync at 2 3.
  destruct (decide (length (NodesMaybeOverReserved ov) = 0)) as [Hlen|Hlen].
  { simpl. unfold Resync. by rewrite decide_True. }
  destruct (makeNodeToPodDataMap isPodRelevant AreExclusiveForPod podLister)
    as [m|] eqn:Hmap.
  2:{ simpl. unfold Resync. by rewrite decide_False, Hmap. }
  simpl. set (ups := omap _ (NodesMaybeOverReserved ov)).
  unfold Resync.
  destruct (decide (length (NodesMaybeOverReserved (FlushNodes ups ov)) = 0))
    as [Hclean|Hleft]; [done|].
  rewrite Hmap. simpl. rewrite resyncMethod_FlushNodes.
  rewrite omap_all_None; [done|].
  intros node Hnode.
  destruct (resyncCandidate' client m (resyncMethod ov) node) as [x|] eqn:Hcand;
    [exfalso|done].
  apply dirty_nodeState in Hnode. rewrite nodeState_FlushNodes in Hnode.
  destruct (lastNamed node ups) as [y|] eqn:Hlast.
  { destruct Hnode as [[? ?]|[? ?]]; done. }
  apply lastNamed_None in Hlast. apply Hlast.
  apply dirty_nodeState in Hnode.
  apply list_elem_of_fmap. exists x. split.
  - symmetry. eapply Hbyname, resyncCandidate_fetched, Hcand.
  - apply list_elem_of_omap. by exists node.
Qed.

(** X18: when the listing succeeds, [makeNodeToPodDataMap] holds for a
    node the relevant units listed on it, in the order of the listing
    and with their exclusivity, and holds no entry at all for a node
    without relevant units. *)
Theorem makeNodeToPodDataMap_groups (pods : list Pod)
    (m : gmap string (list podData)) (nodeName : string) :
  makeNodeToPodDataMap isPodRelevant AreExclusiveForPod (Some pods) = Some m →
  m !! nodeName =
    match liveRoster isPodRelevant AreExclusiveForPod pods nodeName with
    | [] => None
    | roster => Some roster
    end.
Proof.
  intros [= <-]. rewrite addPodData_fold, lookup_empty.
  by destruct (liveRoster isPodRelevant AreExclusiveForPod pods nodeName).
Qed.

(** X19: with a client that answers by name, a node that a completed
    run of [Resync] reports as flushed is handed out by
    [GetCachedNRTCopy] afterwards as the snapshot fetched for it, with no
    overlay and no foreign flag in the way. *)
Theorem Resync_then_get (podLister : option (list Pod))
    (client : string -> option NodeResourceTopology) (ov : OverReserve)
    (flushed : list string) (nodeName : string) (reader : Pod) :
  (∀ n x, client n = Some x → nrtName x = n) →
  (Resync' podLister client ov).2 = ResyncComplete flushed →
  nodeName ∈ flushed →
  ∃ nrt, client nodeName = Some nrt
         ∧ GetCachedNRTCopy nodeName reader (Resync' podLister client ov).1
           = (Some nrt, true).
Proof.
  intros Hbyname. unfold Resync.
  destruct (decide (length (NodesMaybeOverReserved ov) = 0)); [done|].
  destruct (makeNodeToPodDataMap isPodRelevant AreExclusiveForPod podLister)
    as [m|]; [|done].
  simpl. set (ups := omap _ (NodesMaybeOverReserved ov)). intros [= <-] Hin.
  apply list_elem_of_fmap in Hin as (nrt & -> & Hnrt).
  pose proof (resyncUpdates_named _ _ _ _ _ Hbyname Hnrt) as [_ Hcand].
  apply resyncCandidate_fetched in Hcand as Hfetch.
  exists nrt. split; [done|].
  assert (Hstate : nodeState (nrtName nrt) (FlushNodes ups ov) = flushedState nrt).
  { apply (FlushNodes_named _ ov nrt Hnrt). intros other Hother Hsame.
    pose proof (resyncUpdates_named _ _ _ _ _ Hbyname Hother) as [_ Hcand'].
    apply resyncCandidate_fetched in Hcand'. congruence. }
  unfold nodeState, flushedState in Hstate.
  injection Hstate as Hstore Hoverlay Hmaybe Hforeign.
  rewrite (GetCachedNRTCopy_tracked _ _ _ nrt) by done.
  by rewrite Hoverlay, UpdateNRT_empty.
Qed.

(** ** What holds along every sequence of operations *)

Lemma step_keeps_foreign (op : Op) (ov : OverReserve) (nodeName : string) :
  is_Some (nodesWithForeignPods ov !! nodeName) →
  nodeName ∉ flushedBy' op ov →
  is_Some (nodesWithForeignPods (step' op ov) !! nodeName).
Proof.
  intros Hflag Hkept.
  assert (Hflush : ∀ ups, nodeName ∉ map nrtName ups →
            is_Some (nodesWithForeignPods (FlushNodes ups ov) !! nodeName)).
  { intros ups Hnot. pose proof (FlushNodes_other ups ov nodeName Hnot) as Hstate.
    unfold nodeState in Hstate. injection Hstate as _ _ _ Heq. by rewrite Heq. }
  destruct op as [n p|n p|n p|n p|n p| |podLister client|snapshots|n p];
    cbn [step flushedBy PostBind] in *; try done.
  - unfold NodeHasForeignPods. destruct (Contains n (nrts ov)); simpl; [|done].
    destruct (decide (nodeName = n)) as [->|Hne].
    + rewrite lookup_insert_eq. eauto.
    + by rewrite lookup_insert_ne.
  - unfold UnreserveNodeResources. by destruct (assumedResources ov !! n).
  - revert Hkept. unfold Resync.
    destruct (decide (length (NodesMaybeOverReserved ov) = 0)); [done|].
    destruct (makeNodeToPodDataMap isPodRelevant AreExclusiveForPod podLister);
      [|done].
    simpl. apply Hflush.
  - by apply Hflush.
Qed.

(** X14: a node flagged as having foreign units stays withheld by
    [GetCachedNRTCopy] through every sequence of operations that does
    not flush it: reservations, marks and runs of [Resync] that skip the
    node do not clear the flag. *)
Theorem foreign_flag_until_flush (ops : list Op) (ov : OverReserve)
    (nodeName : string) (reader : Pod) :
  is_Some (nodesWithForeignPods ov !! nodeName) →
  nodeName ∉ flushedAlong' ops ov →
  GetCachedNRTCopy nodeName reader (run' ops ov) = (None, false).
Proof.
  intros Hflag Hkept.
  assert (Hstill : is_Some (nodesWithForeignPods (run' ops ov) !! nodeName)).
  { revert ov Hflag Hkept. induction ops as [|op ops IH]; intros ov Hflag Hkept;
      [done|].
    cbn [flushedAlong] in Hkept. apply not_elem_of_app in Hkept as [Hnow Hlater].
    unfold run. cbn [fold_left]. apply IH; [|done].
    by apply step_keeps_foreign. }
  unfold GetCachedNRTCopy. rewrite IsSet_lookup.
  by destruct Hstill as [count ->].
Qed.

Lemma step_store_grows (op : Op) (ov : OverReserve) (nodeName : string) :
  is_Some (nrts ov !! nodeName) → is_Some (nrts (step' op ov) !! nodeName).
Proof.
  intros Hknown.
  assert (Hflush : ∀ ups, is_Some (nrts (FlushNodes ups ov) !! nodeName)).
  { intros ups. pose proof (nodeState_FlushNodes ups ov nodeName) as Hstate.
    destruct (lastNamed nodeName ups); unfold nodeState, flushedState in Hstate;
      injection Hstate as Heq _ _ _; rewrite Heq; eauto. }
  destruct op as [n p|n p|n p|n p|n p| |podLister client|snapshots|n p];
    cbn [step PostBind]; try done.
  - unfold NodeHasForeignPods. by destruct (Contains n (nrts ov)).
  - unfold UnreserveNodeResources. by destruct (assumedResources ov !! n).
  - unfold Resync.
    destruct (decide (length (NodesMaybeOverReserved ov) = 0)); [done|].
    destruct (makeNodeToPodDataMap isPodRelevant AreExclusiveForPod podLister);
      simpl; [apply Hflush | done].
Qed.

Lemma step_foreign_known (op : Op) (ov : OverReserve) :
  (∀ n, is_Some (nodesWithForeignPods ov !! n) → is_Some (nrts ov !! n)) →
  ∀ n, is_Some (nodesWithForeignPods (step' op ov) !! n) →
       is_Some (nrts (step' op ov) !! n).
Proof.
  intros Hinv n Hflag.
  destruct (decide (is_Some (nodesWithForeignPods ov !! n))) as [Hold|Hnew].
  { by apply step_store_grows, Hinv. }
  assert (Hflush : ∀ ups,
            is_Some (nodesWithForeignPods (FlushNodes ups ov) !! n) → False).
  { intros ups. pose proof (nodeState_FlushNodes ups ov n) as Hstate.
    destruct (lastNamed n ups); unfold nodeState, flushedState in Hstate;
      injection Hstate as _ _ _ Heq; rewrite Heq; [by intros [? ?]|done]. }
  destruct op as [m p|m p|m p|m p|m p| |podLister client|snapshots|m p];
    cbn [step PostBind] in *; try done.
  - revert Hflag. unfold NodeHasForeignPods. rewrite Contains_lookup.
    destruct (nrts ov !! m) as [nrt|] eqn:Hm; simpl; [|done].
    destruct (decide (n = m)) as [->|Hne]; [by rewrite Hm; eauto|].
    by rewrite lookup_insert_ne.
  - revert Hflag. unfold UnreserveNodeResources.
    by destruct (assumedResources ov !! m).
  - revert Hflag. unfold Resync.
    destruct (decide (length (NodesMaybeOverReserved ov) = 0)); [done|].
    destruct (makeNodeToPodDataMap isPodRelevant AreExclusiveForPod podLister);
      [|done].
    simpl. intros Hflag. by apply Hflush in Hflag.
  - by apply Hflush in Hflag.
Qed.

(** X15: in every state reached from a new cache by the operations, a
    node flagged as having foreign units has a snapshot in the topology
    store. *)
Theorem foreign_nodes_known (cfg : option (option CacheResyncMethod))
    (client : option (option (list NodeResourceTopology))) (podLister : bool)
    (ov0 : OverReserve) (ops : list Op) (nodeName : string) :
  NewOverReserve cfg client podLister = Some ov0 →
  is_Some (nodesWithForeignPods (run' ops ov0) !! nodeName) →
  is_Some (nrts (run' ops ov0) !! nodeName).
Proof.
  intros Hnew.
  assert (Hinit : ∀ n, is_Some (nodesWithForeignPods ov0 !! n)
                       → is_Some (nrts ov0 !! n)).
  { unfold NewOverReserve in Hnew.
    destruct client as [[items|]|]; destruct podLister; try done.
    injection Hnew as <-. simpl. intros n. unfold newCounter.
    rewrite lookup_empty. by intros [? ?]. }
  clear Hnew. revert nodeName. revert ov0 Hinit.
  induction ops as [|op ops IH]; intros ov Hinv; [done|].
  unfold run. cbn [fold_left]. apply IH. by apply step_foreign_known.
Qed.

(** X16: the topology store never loses a node: a node with a snapshot
    has one after every sequence of operations. *)
Theorem store_keeps_nodes (ops : list Op) (ov : OverReserve) (nodeName : string) :
  is_Some (nrts ov !! nodeName) →
  is_Some (nrts (run' ops ov) !! nodeName).
Proof.
  revert ov. induction ops as [|op ops IH]; intros ov Hknown; [done|].
  unfold run. cbn [fold_left]. apply IH. by apply step_store_grows.
Qed.

End MoreResyncFacts.

(** ** Recording the create-volume metric *)

Section RecordingFacts.

Variable Time : Type.
Variable Seconds : Type.
Variable IsZero : Time -> bool.
Variable sinceSeconds : Time -> Seconds.
Variable zeroSeconds : Seconds.

Local Abbreviation RecordCreateVolumeMetric' :=
  (vclib.RecordCreateVolumeMetric Time Seconds IsZero sinceSeconds zeroSeconds).

(** X17: [RecordCreateVolumeMetric] always records in the vectors of the
    operations, never in those of the API calls: an error as an
    increment of the error counter and a success as a latency, under the
    operation name chosen by the options, where a storage policy name
    takes precedence over raw VSAN profile data. *)
Theorem RecordCreateVolumeMetric_operation (volumeOptions : vclib.VolumeOptions)
    (requestTime : Time) (err : bool) :
  vclib.isOperationSample Seconds
    (RecordCreateVolumeMetric' volumeOptions requestTime err) = true
  ∧ vclib.isErrorSample Seconds
      (RecordCreateVolumeMetric' volumeOptions requestTime err) = err
  ∧ vclib.sampleLabel Seconds
      (RecordCreateVolumeMetric' volumeOptions requestTime err)
    = match vclib.StoragePolicyName volumeOptions,
            vclib.VSANStorageProfileData volumeOptions with
      | String _ _, _ => "CreateVolumeWithPolicyOperation"
      | EmptyString, String _ _ => "CreateVolumeWithRawVSANPolicyOperation"
      | EmptyString, EmptyString => "CreateVolumeOperation"
      end.
Proof.
  unfold vclib.RecordCreateVolumeMetric.
  destruct volumeOptions as [[|c policy] [|d vsan]]; destruct err;
    vm_compute; done.
Qed.

End RecordingFacts.

(** ** The properties on the cluster of one node *)

Import Scenario.

Local Abbreviation runScenario :=
  (run podFingerprintForNodeTopology checkPodFingerprintForNode isPodRelevant AreExclusiveForPod).

(** Resync scenario of the specification: with a and b as the live
    roster of n1 the node is flushed; with c added to the roster it
    stays as it was. *)
Lemma Resync_flushes_exactly_matching_witness :
  (∀ n nrt, client n = Some nrt → nrtName nrt = n)
  ∧ nodeState "n1" (resync (Some [podA; podD; podB]) dirty).1 = flushedState fresh
  ∧ nodeState "n1" (resync (Some [podA; podD; podB; podC]) dirty).1
    = nodeState "n1" dirty.
Proof.
  assert (Hbyname : ∀ n nrt, client n = Some nrt → nrtName nrt = n).
  { intros n nrt. unfold client. case_decide; [|done]. by intros [= <-]. }
  split; [exact Hbyname|]. split.
  - refine (proj1 (Resync_flushes_exactly_matching podFingerprintForNodeTopology
                     checkPodFingerprintForNode isPodRelevant AreExclusiveForPod (Some [podA; podD; podB])
                     client dirty "n1" Hbyname) fresh _ _).
    + apply (bool_decide_unpack _). vm_compute. reflexivity.
    + split; [reflexivity|]. exists [podA; podD; podB].
      split; [reflexivity|]. split; [by vm_compute|]. split; [by vm_compute|].
      vm_compute. reflexivity.
  - refine (proj2 (Resync_flushes_exactly_matching podFingerprintForNodeTopology
                     checkPodFingerprintForNode isPodRelevant AreExclusiveForPod (Some [podA; podD; podB; podC])
                     client dirty "n1" Hbyname) _).
    intros [_ [nrt [Hfetch (pods & [= <-] & _ & _ & Hcheck)]]].
    injection Hfetch as <-. vm_compute in Hcheck. discriminate.
Defined.

(** A node the topology store has never seen is listed as dirty once
    it is marked as maybe over-reserved. *)
Example unseen_node_listed_dirty :
  Contains "n9" (nrts cache0) = false
  ∧ NodesMaybeOverReserved (NodeMaybeOverReserved "n9" podC cache0) = ["n9"].
Proof. split; vm_compute; reflexivity. Qed.

Lemma Resync_listing_failure_witness :
  NodesMaybeOverReserved dirty ≠ []
  ∧ resync None dirty = (dirty, ListingFailed).
Proof.
  assert (Hdirty : NodesMaybeOverReserved dirty ≠ []).
  { intros Hnil. vm_compute in Hnil. discriminate. }
  split; [exact Hdirty|].
  exact (Resync_listing_failure podFingerprintForNodeTopology checkPodFingerprintForNode isPodRelevant
           AreExclusiveForPod client dirty Hdirty).
Defined.

Lemma UnreserveNodeResources_untracked_witness :
  assumedResources cache0 !! "n1" = None
  ∧ UnreserveNodeResources "n1" podA cache0 = cache0
  ∧ assumedResources (UnreserveNodeResources "n1" podA cache0) !! "n1" = None.
Proof.
  split; [reflexivity|].
  apply (UnreserveNodeResources_untracked "n1" podA cache0). reflexivity.
Defined.

(** C3 as stated fails: with b already reserved on n1, the view after
    reserving a is the stored snapshot less the requests of both units;
    and on a node flagged foreign no snapshot is handed out at all. *)
Lemma reserve_then_get_counterexample :
  (nrts busy !! "n1" = Some stale
   ∧ GetCachedNRTCopy "n1" podA (ReserveNodeResources "n1" podA busy)
     ≠ (Some (lessRequestedNRT (Requests podA) stale), true))
  ∧ (nrts foreign !! "n1" = Some stale
     ∧ GetCachedNRTCopy "n1" podA (ReserveNodeResources "n1" podA foreign)
       = (None, false)).
Proof.
  split; split.
  - vm_compute. reflexivity.
  - intros Heq. vm_compute in Heq. discriminate.
  - vm_compute. reflexivity.
  - vm_compute. reflexivity.
Qed.

Lemma reserve_then_get_witness :
  nrts cache0 !! "n1" = Some stale
  ∧ nodesWithForeignPods cache0 !! "n1" = None
  ∧ default ∅ (assumedResources cache0 !! "n1") = ∅
  ∧ GetCachedNRTCopy "n1" podB (ReserveNodeResources "n1" podA cache0)
    = (Some (lessRequestedNRT (Requests podA) stale), true).
Proof.
  assert (Hnrt : nrts cache0 !! "n1" = Some stale) by (vm_compute; reflexivity).
  split; [exact Hnrt|]. split; [reflexivity|]. split; [reflexivity|].
  apply (reserve_then_get "n1" podA podB cache0 stale Hnrt); reflexivity.
Defined.

(** C4 as stated fails: with b reserved on n1, the view after reserving
    and unreserving a still carries the charge of b; and on a node
    flagged foreign the view is withheld. *)
Lemma reserve_unreserve_round_trip_counterexample :
  (is_Some (nrts busy !! "n1")
   ∧ ¬ viewIsStored "n1" podA
         (UnreserveNodeResources "n1" podA (ReserveNodeResources "n1" podA busy)))
  ∧ (is_Some (nrts foreign !! "n1")
     ∧ ¬ viewIsStored "n1" podA
           (UnreserveNodeResources "n1" podA (ReserveNodeResources "n1" podA foreign))).
Proof.
  split; split.
  - exists stale. vm_compute. reflexivity.
  - intros [nrt [Hnrt Hview]]. vm_compute in Hnrt. injection Hnrt as <-.
    vm_compute in Hview. discriminate.
  - exists stale. vm_compute. reflexivity.
  - intros [nrt [_ Hview]]. vm_compute in Hview. discriminate.
Qed.

Lemma reserve_unreserve_round_trip_witness :
  is_Some (nrts cache0 !! "n1")
  ∧ nodesWithForeignPods cache0 !! "n1" = None
  ∧ default ∅ (assumedResources cache0 !! "n1") = ∅
  ∧ viewIsStored "n1" podB
      (UnreserveNodeResources "n1" podA (ReserveNodeResources "n1" podA cache0))
  ∧ GetCachedNRTCopy "n1" podB
      (UnreserveNodeResources "n1" podA (ReserveNodeResources "n1" podA cache0))
    = GetCachedNRTCopy "n1" podB cache0.
Proof.
  assert (Hnrt : is_Some (nrts cache0 !! "n1")) by (exists stale; vm_compute; reflexivity).
  split; [exact Hnrt|]. split; [reflexivity|]. split; [reflexivity|].
  apply (reserve_unreserve_round_trip "n1" podA podB cache0 Hnrt); reflexivity.
Defined.

(** C9 as stated fails: after a is reserved on n1 and unreserved again,
    no reservation is outstanding for n1, and n1 still is a key of the
    overlay store. *)
Lemma overlay_keys_counterexample :
  NewOverReserve None (Some (Some [stale])) true = Some cache0
  ∧ is_Some (assumedResources (runScenario reserveThenUnreserve cache0) !! "n1")
  ∧ outstanding podFingerprintForNodeTopology checkPodFingerprintForNode isPodRelevant AreExclusiveForPod
                reserveThenUnreserve cache0 "n1" = [].
Proof.
  split; [reflexivity|]. split.
  - exists ∅. vm_compute. reflexivity.
  - vm_compute. reflexivity.
Qed.

Lemma overlay_keys_reserved_since_flush_witness :
  NewOverReserve None (Some (Some [stale])) true = Some cache0
  ∧ (is_Some (assumedResources (runScenario reserveThenUnreserve cache0) !! "n1")
     ↔ "n1" ∈ reservedSinceFlush podFingerprintForNodeTopology checkPodFingerprintForNode isPodRelevant
                AreExclusiveForPod reserveThenUnreserve cache0).
Proof.
  split; [reflexivity|].
  apply (overlay_keys_reserved_since_flush podFingerprintForNodeTopology
           checkPodFingerprintForNode isPodRelevant AreExclusiveForPod None (Some (Some [stale])) true).
  reflexivity.
Defined.

(** ** Further properties on the cluster of one node *)

Local Abbreviation flushedAlongScenario :=
  (flushedAlong podFingerprintForNodeTopology checkPodFingerprintForNode
                isPodRelevant AreExclusiveForPod).

Lemma FlushNodes_then_get_witness :
  lastNamed (nrtName fresh) [stale; fresh] = Some fresh
  ∧ GetCachedNRTCopy (nrtName fresh) podC (FlushNodes [stale; fresh] dirty)
    = (Some fresh, true).
Proof.
  assert (Hlast : lastNamed (nrtName fresh) [stale; fresh] = Some fresh)
    by reflexivity.
  split; [exact Hlast|].
  exact (FlushNodes_then_get [stale; fresh] dirty fresh podC Hlast).
Defined.

Lemma reserve_unreserve_frame_witness :
  "n2" ≠ "n1"
  ∧ nodeState "n2" (ReserveNodeResources "n1" podA busy) = nodeState "n2" busy
  ∧ nodeState "n2" (UnreserveNodeResources "n1" podA busy) = nodeState "n2" busy.
Proof.
  assert (Hother : "n2" ≠ "n1") by discriminate.
  split; [exact Hother|].
  exact (reserve_unreserve_frame "n1" "n2" podA busy Hother).
Defined.

Lemma NewOverReserve_clean_witness :
  NewOverReserve None (Some (Some [stale])) true = Some cache0
  ∧ (true = true ∧ ∃ nrtObjs, Some (Some [stale]) = Some (Some nrtObjs))
  ∧ NodesMaybeOverReserved cache0 = []
  ∧ ∀ nodeName reader,
      GetCachedNRTCopy nodeName reader cache0 = (nrts cache0 !! nodeName, true).
Proof.
  split; [reflexivity|].
  apply (NewOverReserve_clean None (Some (Some [stale])) true cache0). reflexivity.
Defined.

Lemma PodLogID_inj_witness :
  hasSlash (Namespace podA) = false
  ∧ hasSlash (Namespace podA) = false
  ∧ PodLogID podA
    = PodLogID {| Namespace := "default"; Name := "a"; NodeName := "n2";
                  Requests := ∅ |}
  ∧ Namespace podA = "default" ∧ Name podA = "a".
Proof.
  split; [reflexivity|]. split; [reflexivity|]. split; [reflexivity|].
  apply (PodLogID_inj podA
           {| Namespace := "default"; Name := "a"; NodeName := "n2";
              Requests := ∅ |}); reflexivity.
Defined.

Lemma Resync_no_dirty_witness :
  nodesWithForeignPods cache0 = ∅
  ∧ nodesMaybeOverreserved cache0 = ∅
  ∧ resync None cache0 = (cache0, NoDirtyNodes).
Proof.
  split; [reflexivity|]. split; [reflexivity|].
  apply (Resync_no_dirty podFingerprintForNodeTopology checkPodFingerprintForNode
           isPodRelevant AreExclusiveForPod None client cache0); reflexivity.
Defined.

Lemma client_by_name :
  ∀ n x, client n = Some x → nrtName x = n.
Proof. intros n x. unfold client. case_decide; [|done]. by intros [= <-]. Defined.

Lemma Resync_fetch_failure_witness :
  (∀ n x, ((fun _ : string => @None NodeResourceTopology) n) = Some x
          → nrtName x = n)
  ∧ nodeState "n1"
      (Resync podFingerprintForNodeTopology checkPodFingerprintForNode isPodRelevant
              AreExclusiveForPod (Some [podA; podB]) (fun _ => None) dirty).1
    = nodeState "n1" dirty
  ∧ ("n1" ∈ NodesMaybeOverReserved dirty →
     "n1" ∈ NodesMaybeOverReserved
              (Resync podFingerprintForNodeTopology checkPodFingerprintForNode
                      isPodRelevant AreExclusiveForPod (Some [podA; podB])
                      (fun _ => None) dirty).1).
Proof.
  assert (Hbyname : ∀ n x, ((fun _ : string => @None NodeResourceTopology) n) = Some x
                           → nrtName x = n) by (intros n x; discriminate).
  split; [exact Hbyname|].
  exact (Resync_fetch_failure podFingerprintForNodeTopology
           checkPodFingerprintForNode isPodRelevant AreExclusiveForPod
           (Some [podA; podB]) (fun _ => None) dirty "n1" Hbyname eq_refl).
Defined.

Lemma Resync_flushes_dirty_only_witness :
  (∀ n x, client n = Some x → nrtName x = n)
  ∧ (resync (Some [podA; podD; podB]) dirty).2 = ResyncComplete ["n1"]
  ∧ (∀ nodeName, nodeName ∈ ["n1"] → nodeName ∈ NodesMaybeOverReserved dirty)
  ∧ (∀ nodeName,
       nodeName ∈ NodesMaybeOverReserved (resync (Some [podA; podD; podB]) dirty).1
       ↔ nodeName ∈ NodesMaybeOverReserved dirty ∧ nodeName ∉ ["n1"]).
Proof.
  assert (Hdone : (resync (Some [podA; podD; podB]) dirty).2 = ResyncComplete ["n1"])
    by (vm_compute; reflexivity).
  split; [exact client_by_name|]. split; [exact Hdone|].
  exact (Resync_flushes_dirty_only podFingerprintForNodeTopology
           checkPodFingerprintForNode isPodRelevant AreExclusiveForPod
           (Some [podA; podD; podB]) client dirty ["n1"] client_by_name Hdone).
Defined.

Lemma Resync_twice_witness :
  (∀ n x, client n = Some x → nrtName x = n)
  ∧ (resync (Some [podA; podD; podB]) (resync (Some [podA; podD; podB]) dirty).1).1
    = (resync (Some [podA; podD; podB]) dirty).1.
Proof.
  split; [exact client_by_name|].
  exact (Resync_twice podFingerprintForNodeTopology checkPodFingerprintForNode
           isPodRelevant AreExclusiveForPod (Some [podA; podD; podB]) client dirty
           client_by_name).
Defined.

Lemma foreign_flag_until_flush_witness :
  is_Some (nodesWithForeignPods foreign !! "n1")
  ∧ ("n1" ∉ flushedAlongScenario busyCycle foreign)
  ∧ GetCachedNRTCopy "n1" podB (runScenario busyCycle foreign) = (None, false).
Proof.
  assert (Hflag : is_Some (nodesWithForeignPods foreign !! "n1"))
    by (exists 1; vm_compute; reflexivity).
  assert (Hkept : "n1" ∉ flushedAlongScenario busyCycle foreign)
    by (apply (bool_decide_unpack _); vm_compute; reflexivity).
  split; [exact Hflag|]. split; [exact Hkept|].
  exact (foreign_flag_until_flush podFingerprintForNodeTopology
           checkPodFingerprintForNode isPodRelevant AreExclusiveForPod
           busyCycle foreign "n1" podB Hflag Hkept).
Defined.

Lemma foreign_nodes_known_witness :
  NewOverReserve None (Some (Some [stale])) true = Some cache0
  ∧ is_Some (nodesWithForeignPods
               (runScenario [OpNodeHasForeignPods "n1" podC] cache0) !! "n1")
  ∧ is_Some (nrts (runScenario [OpNodeHasForeignPods "n1" podC] cache0) !! "n1").
Proof.
  assert (Hflag : is_Some (nodesWithForeignPods
                    (runScenario [OpNodeHasForeignPods "n1" podC] cache0) !! "n1"))
    by (exists 1; vm_compute; reflexivity).
  split; [reflexivity|]. split; [exact Hflag|].
  exact (foreign_nodes_known podFingerprintForNodeTopology
           checkPodFingerprintForNode isPodRelevant AreExclusiveForPod
           None (Some (Some [stale])) true cache0
           [OpNodeHasForeignPods "n1" podC] "n1" eq_refl Hflag).
Defined.

Lemma store_keeps_nodes_witness :
  is_Some (nrts dirty !! "n1")
  ∧ is_Some (nrts (runScenario [OpResync (Some [podA; podD; podB]) client;
                                OpReserveNodeResources "n1" podC] dirty) !! "n1").
Proof.
  assert (Hknown : is_Some (nrts dirty !! "n1"))
    by (exists stale; vm_compute; reflexivity).
  split; [exact Hknown|].
  exact (store_keeps_nodes podFingerprintForNodeTopology
           checkPodFingerprintForNode isPodRelevant AreExclusiveForPod
           [OpResync (Some [podA; podD; podB]) client;
            OpReserveNodeResources "n1" podC] dirty "n1" Hknown).
Defined.

Lemma Resync_then_get_witness :
  (∀ n x, client n = Some x → nrtName x = n)
  ∧ (resync (Some [podA; podD; podB]) dirty).2 = ResyncComplete ["n1"]
  ∧ "n1" ∈ ["n1"]
  ∧ ∃ nrt, client "n1" = Some nrt
           ∧ GetCachedNRTCopy "n1" podC (resync (Some [podA; podD; podB]) dirty).1
             = (Some nrt, true).
Proof.
  assert (Hdone : (resync (Some [podA; podD; podB]) dirty).2 = ResyncComplete ["n1"])
    by (vm_compute; reflexivity).
  assert (Hin : "n1" ∈ ["n1"]) by (by left).
  split; [exact client_by_name|]. split; [exact Hdone|]. split; [exact Hin|].
  exact (Resync_then_get podFingerprintForNodeTopology checkPodFingerprintForNode
           isPodRelevant AreExclusiveForPod (Some [podA; podD; podB]) client dirty
           ["n1"] "n1" podC client_by_name Hdone Hin).
Defined.

Lemma makeNodeToPodDataMap_groups_witness :
  makeNodeToPodDataMap isPodRelevant AreExclusiveForPod (Some [podA; podD; podB])
  = Some (fold_left (addPodData isPodRelevant AreExclusiveForPod)
                    [podA; podD; podB] ∅)
  ∧ fold_left (addPodData isPodRelevant AreExclusiveForPod) [podA; podD; podB] ∅
      !! "n1"
    = Some [ {| pdNamespace := "default"; pdName := "a";
                HasExclusiveResources := false |};
             {| pdNamespace := "default"; pdName := "b";
                HasExclusiveResources := false |} ].
Proof.
  split; [reflexivity|].
  exact (makeNodeToPodDataMap_groups isPodRelevant AreExclusiveForPod
           [podA; podD; podB] _ "n1" eq_refl).
Defined.
